(** * WiMAX interactive network simulator: a shallow embedding of [app.py]

    [app.py] is one top-to-bottom script.  Every refresh reads the current
    values of the input controls, evaluates closed-form formulas on them,
    draws from numpy's global random generator, and hands the results to
    the rendering calls.  The embedding follows the script section by
    section and keeps the names of its variables.

    Modelling decisions, all of them visible in the definitions below:

    - Python [float] values (and numpy's [float64]) are modelled as the real
      numbers [R]: [**] with a float exponent is [Rpower], [np.exp] is
      [exp], [np.pi] is [PI].  These are the exact values of the formulas;
      the rounding of binary64 is outside this reading.
    - For the BER line, where a result leaves the binary64 range, module
      [Computed] gives the second reading: every operation delivers the
      binary64 number nearest to its exact result ([Binary64.round]).
    - The probabilities of the schedule and their running sums are binary64
      numbers as well: the class of a slot is decided by comparing a raw
      sample with them, where the exact and the rounded value differ.
    - The exact reading has no overflow: the [OverflowError] that Python
      raises when [**] leaves the binary64 range (a coverage exponent above
      308.25, an SNR above 3082 dB) is not part of it.  On which
      computations return, the exact reading agrees with the script while
      the powers stay in range, as they do for controls within their
      slider ranges, where every power stays below [10^7].
    - Python [int] values (the integer sliders, [range]) are [Z].
    - A Python [dict] with string keys is a [gmap string _].
    - Exceptions are an explicit result type; numpy's global generator is
      an explicit state threaded through the script.
    - The rendering calls ([st.metric], [st.pyplot], [plt...], [time.sleep])
      compute nothing that the script reads back, and are left out. *)

From Stdlib Require Import Reals Lra Lia ZArith List String.
From stdpp Require Import base gmap strings list.

Open Scope R_scope.
Open Scope string_scope.

(** ** Exceptions and the random source *)

Inductive exn : Type :=
| KeyError (key : string)
| IndexError
| ZeroDivisionError.

Inductive result (A : Type) : Type :=
| Ok (a : A)
| Raise (e : exn).
Arguments Ok {A} a.
Arguments Raise {A} e.

(** numpy's global generator: an unbounded tape of raw samples and the
    position of the next one.  [valid_tape] is numpy's contract for
    [random_sample]: every raw sample lies in the half-open interval
    [0, 1). *)
Record rng : Type := mkRng { tape : nat -> R; pos : nat }.

Definition valid_tape (g : rng) : Prop := forall i : nat, 0 <= tape g i < 1.

(** A script fragment reads and advances the generator and either returns
    a value or raises. *)
Definition M (A : Type) : Type := rng -> result (A * rng).

Definition ret {A} (a : A) : M A := fun g => Ok (a, g).
Definition bind {A B} (m : M A) (k : A -> M B) : M B :=
  fun g => match m g with
           | Ok (a, g') => k a g'
           | Raise e => Raise e
           end.

Notation "'do' x <- m ; k" := (bind m (fun x => k))
  (at level 10, x name, m at level 100, k at level 200).

(** [np.random.random_sample()] *)
Definition random_sample : M R :=
  fun g => Ok (tape g (pos g), mkRng (tape g) (S (pos g))).

(** [np.random.uniform(low, high)]: [low + (high - low) * random_sample()] *)
Definition uniform (low high : R) : M R :=
  do u <- random_sample; ret (low + (high - low) * u).

(** [np.random.random_sample(n)]: [n] consecutive raw samples *)
Fixpoint random_samples (n : nat) : M (list R) :=
  match n with
  | O => ret []
  | S n' => do u <- random_sample; do us <- random_samples n'; ret (u :: us)
  end.

(** Python's true division [x / y] of a float by a float or an int. *)
Definition truediv (x y : R) : result R :=
  if Req_dec_T y 0 then Raise ZeroDivisionError else Ok (x / y).

(** The same with an [int] divisor, where the zero test is decidable by
    computation. *)
Definition truediv_int (x : R) (y : Z) : result R :=
  if (y =? 0)%Z then Raise ZeroDivisionError else Ok (x / IZR y).

Definition lift {A} (r : result A) : M A :=
  fun g => match r with Ok a => Ok (a, g) | Raise e => Raise e end.

(** ** The input controls

    One field per widget, read once per refresh. *)
Record controls : Type := mkControls {
  freq : R;               (* st.slider 2.3 .. 3.5 step 0.1 *)
  tx_power : Z;           (* st.slider 10 .. 40 *)
  path_loss_exp : R;      (* st.slider 2.0 .. 5.0 step 0.1 *)
  mod_scheme : string;    (* st.radio *)
  bw : R;                 (* st.slider 1.25 .. 20.0 *)
  qos_class : string;     (* st.selectbox *)
  snr_db : Z;             (* st.slider 0 .. 30 *)
  run_button : bool       (* st.button *)
}.

(** ** Binary64 arithmetic

    The binary64 numbers are the reals [m * 2^e] with [|m| < 2^53] and
    [e >= -1074] (and [e] below the overflow threshold, which no result in
    this script approaches). *)
Module Binary64.

(** [floor x]: the largest integer not above [x]. *)
Definition floor (x : R) : Z := (up x - 1)%Z.

(** The exponent of the unit in the last place of [x]: 53 significant bits,
    and no exponent below that of the subnormal numbers. *)
Definition ulp_exponent (x : R) : Z :=
  Z.max (floor (ln (Rabs x) / ln 2) - 52) (-1074).

(** The nearest integer, ties going to the even one. *)
Definition nearest_even (y : R) : Z :=
  let f := floor y in
  let d := y - IZR f in
  if Rlt_dec d (1 / 2) then f
  else if Rlt_dec (1 / 2) d then (f + 1)%Z
  else if Z.even f then f else (f + 1)%Z.

(** Round to nearest, ties to even, onto the binary64 numbers (overflow
    to infinity left aside). *)
Definition round (x : R) : R :=
  if Req_dec_T x 0 then 0
  else IZR (nearest_even (x * Rpower 2 (- IZR (ulp_exponent x))))
       * Rpower 2 (IZR (ulp_exponent x)).

End Binary64.

(** ** 1. Coverage area calculator (lines 18-21) *)
Module Coverage.

Definition c : R := 3e8.

Definition wavelength (freq : R) : result R := truediv c (freq * 1e9).

Definition rx_thresh : Z := (-90)%Z.

Definition max_distance (freq : R) (tx_power : Z) (path_loss_exp : R)
  : result R :=
  match wavelength freq with
  | Raise e => Raise e
  | Ok wl =>
      match truediv (IZR (tx_power - rx_thresh)) (10 * path_loss_exp) with
      | Raise e => Raise e
      | Ok e => Ok ((wl / (4 * PI)) * Rpower 10 e)
      end
  end.

End Coverage.

(** ** 2. Spectral efficiency and data rate (lines 27-31) *)
Module Spectral.

Definition modulation_choices : list string :=
  ["QPSK (2 bits/sym)"; "16-QAM (4 bits/sym)"; "64-QAM (6 bits/sym)"].

Definition bits_table : gmap string Z :=
  {[ "QPSK (2 bits/sym)" := 2%Z;
     "16-QAM (4 bits/sym)" := 4%Z;
     "64-QAM (6 bits/sym)" := 6%Z ]}.

(** [{...}[mod_scheme]]: subscripting a dict raises [KeyError] on a
    missing key. *)
Definition bits_per_sym (mod_scheme : string) : result Z :=
  match bits_table !! mod_scheme with
  | Some b => Ok b
  | None => Raise (KeyError mod_scheme)
  end.

Definition data_rate (bw : R) (bits_per_sym : Z) : R :=
  bw * 1e6 * IZR bits_per_sym / 7.

End Spectral.

(** ** 3. QoS class analyzer (lines 36-51)

    The [if]/[elif]/[else] chain sets the text passed to [st.write] and
    the [metrics] dict passed to [st.json]. *)
Module QoS.

Definition class_choices : list string := ["UGS"; "rtPS"; "nrtPS"; "BE"].

Record descriptor : Type := mkDescriptor {
  description : string;
  metrics : gmap string string
}.

Definition analyze (qos_class : string) : descriptor :=
  if String.eqb qos_class "UGS" then
    mkDescriptor
      "✅ Unsolicited Grant Service: Low delay, constant bit rate (e.g. VoIP)"
      {[ "Delay" := "Very Low"; "Jitter" := "Low"; "Throughput" := "High";
         "BER" := "Low"; "PLR" := "Very Low" ]}
  else if String.eqb qos_class "rtPS" then
    mkDescriptor
      "✅ Real-Time Polling Service: Variable rate, real-time (e.g. video)"
      {[ "Delay" := "Low"; "Jitter" := "Medium";
         "Throughput" := "Medium-High"; "BER" := "Medium"; "PLR" := "Low" ]}
  else if String.eqb qos_class "nrtPS" then
    mkDescriptor
      "✅ Non-Real-Time Polling Service: Bursty traffic (e.g. FTP)"
      {[ "Delay" := "High"; "Jitter" := "Medium"; "Throughput" := "Medium";
         "BER" := "Medium"; "PLR" := "Medium" ]}
  else
    mkDescriptor
      "✅ Best Effort: No guarantee (e.g. web browsing)"
      {[ "Delay" := "Variable"; "Jitter" := "Variable";
         "Throughput" := "Low-Medium"; "BER" := "High"; "PLR" := "High" ]}.

Definition rating_keys : gset string :=
  {[ "Delay"; "Jitter"; "Throughput"; "BER"; "PLR" ]}.

End QoS.

(** ** 4. OFDM subcarrier visualisation (lines 55-58) *)
Module OFDM.

Definition N : Z := 64.

(** [np.arange(a, b)]: the integers [a], [a+1], ..., [b-1]. *)
Definition arange (a b : Z) : list Z :=
  map (fun i : nat => (a + Z.of_nat i)%Z) (seq 0 (Z.to_nat (b - a))).

(** [-N//2] parses as [(-N)//2]; Python's [//] on ints is floor division,
    which is [Z.div]. *)
Definition subcarriers : list Z := arange ((- N) / 2)%Z (N / 2)%Z.

(** [np.zeros(n)] *)
Definition zeros (n : Z) : list R := repeat 0 (Z.to_nat n).

(** [range(0, len, step)]: the positions selected by the slice [::step]. *)
Definition slice_positions (step len : nat) : list nat :=
  map (fun k : nat => (k * step)%nat) (seq 0 (Nat.div (len + step - 1) step)).

(** [a[::step] = v]: store [v] at every selected position. *)
Definition assign_every (step : nat) (v : R) (a : list R) : list R :=
  foldr (fun (i : nat) (acc : list R) => <[i := v]> acc) a
        (slice_positions step (length a)).

Definition power : list R := assign_every 4 1 (zeros N).

#[global] Instance R_eq_dec : EqDecision R := Req_dec_T.

(** A subcarrier is active when its power is 1. *)
Definition active_count (p : list R) : nat :=
  length (filter (fun x : R => x = 1) p).

End OFDM.

(** ** 5. Scheduling demo (lines 68-70) *)
Module Scheduling.

Definition traffic_classes : list string := ["UGS"; "rtPS"; "nrtPS"; "BE"].
Definition slots : nat := 20.

(** [p=[0.3, 0.3, 0.2, 0.2]]: the binary64 numbers the literals denote. *)
Definition p : list R :=
  [Binary64.round 0.3; Binary64.round 0.3;
   Binary64.round 0.2; Binary64.round 0.2].

(** [p.cumsum()]: the first entry, then the running sums, each a binary64
    addition. *)
Fixpoint cumsum_from (acc : R) (l : list R) : list R :=
  match l with
  | [] => []
  | x :: l' =>
      Binary64.round (acc + x) :: cumsum_from (Binary64.round (acc + x)) l'
  end.
Definition cumsum (l : list R) : list R :=
  match l with
  | [] => []
  | x :: l' => x :: cumsum_from x l'
  end.

(** [cdf /= cdf[-1]]: binary64 divisions by the last entry. *)
Definition normalise (cdf : list R) : list R :=
  map (fun x : R => Binary64.round (x / List.last cdf 0)) cdf.

(** [cdf.searchsorted(u, side='right')] on a sorted [cdf]: the first
    position whose entry is greater than [u]. *)
Fixpoint searchsorted_right (cdf : list R) (u : R) : nat :=
  match cdf with
  | [] => O
  | x :: cdf' =>
      if Rle_dec x u then S (searchsorted_right cdf' u) else O
  end.

(** [a[idx]] for an array of indices *)
Fixpoint take (a : list string) (idx : list nat) : result (list string) :=
  match idx with
  | [] => Ok []
  | i :: idx' =>
      match a !! i with
      | None => Raise IndexError
      | Some x =>
          match take a idx' with
          | Ok xs => Ok (x :: xs)
          | Raise e => Raise e
          end
      end
  end.

(** [np.random.choice(a, size, p=p)]: inverse-CDF sampling, one raw
    sample per drawn element. *)
Definition choice (a : list string) (size : nat) (p : list R)
  : M (list string) :=
  let cdf := normalise (cumsum p) in
  do us <- random_samples size;
  lift (take a (map (searchsorted_right cdf) us)).

Definition schedule : M (list string) := choice traffic_classes slots p.

End Scheduling.

(** ** 6. QoS metrics (lines 79-87, 97-98) *)
Module LinkQuality.

Definition snr_lin (snr_db : R) : R := Rpower 10 (snr_db / 10).

Definition ber (snr_db : R) : R := 0.5 * exp (- snr_lin snr_db).

Definition throughput (data_rate ber : R) : R := data_rate * (1 - ber).

Definition delay (snr_db : Z) : M R :=
  do u <- uniform 10 50; lift (truediv_int u (snr_db + 1)).

Definition jitter (snr_db : Z) : M R :=
  do u <- uniform 1 10; lift (truediv_int u (snr_db + 1)).

Definition plr (ber : R) : R := ber * 100.

(** [np.linspace(start, stop, num)] *)
Definition linspace (start stop : R) (num : nat) : list R :=
  map (fun i : nat => start + INR i * ((stop - start) / INR (num - 1)))
      (seq 0 num).

Definition snr_range : list R := linspace 0 30 50.
Definition ber_curve : list R :=
  map (fun s : R => 0.5 * exp (- Rpower 10 (s / 10))) snr_range.

End LinkQuality.

(** ** 7. Real-time network monitoring (lines 111-122) *)
Module Monitor.

(** The three lists the loop appends to. *)
Record series : Type := mkSeries {
  x_vals : list Z;
  ber_vals : list R;
  thr_vals : list R
}.

Definition empty : series := mkSeries [] [] [].

(** [range(n)] *)
Definition range (n : nat) : list Z := map Z.of_nat (seq 0 n).

(** One pass through the loop body, lines 115-122. *)
Definition step (snr_db : Z) (data_rate : R) (t : Z) (s : series)
  : M series :=
  do noise <- uniform (-2) 2;
  let snr_dynamic := IZR snr_db + noise in
  let snr_lin_dynamic := Rpower 10 (snr_dynamic / 10) in
  let ber_dynamic := 0.5 * exp (- snr_lin_dynamic) in
  let thr_dynamic := data_rate * (1 - ber_dynamic) in
  ret (mkSeries (x_vals s ++ [t])
                (ber_vals s ++ [ber_dynamic])
                (thr_vals s ++ [thr_dynamic / 1e6])).

(** [for t in ts: body] *)
Fixpoint for_each (ts : list Z) (body : Z -> series -> M series)
         (s : series) : M series :=
  match ts with
  | [] => ret s
  | t :: ts' => do s' <- body t s; for_each ts' body s'
  end.

Definition live_simulation (snr_db : Z) (data_rate : R) : M series :=
  for_each (range 30) (step snr_db data_rate) empty.

End Monitor.

(** ** The whole script

    One refresh: the sections run in source order, so the generator is
    consumed by the schedule first, then by delay and jitter, then by the
    monitoring loop when the button was pressed. *)
Record outputs : Type := mkOutputs {
  out_max_distance : R;
  out_data_rate : R;
  out_qos : QoS.descriptor;
  out_subcarriers : list Z;
  out_power : list R;
  out_schedule : list string;
  out_ber : R;
  out_throughput : R;
  out_delay : R;
  out_jitter : R;
  out_plr : R;
  out_ber_curve : list R;
  out_live : option Monitor.series
}.

Definition refresh (k : controls) : M outputs :=
  do max_distance <-
     lift (Coverage.max_distance (freq k) (tx_power k) (path_loss_exp k));
  do bits_per_sym <- lift (Spectral.bits_per_sym (mod_scheme k));
  let data_rate := Spectral.data_rate (bw k) bits_per_sym in
  let qos := QoS.analyze (qos_class k) in
  do schedule <- Scheduling.schedule;
  let ber := LinkQuality.ber (IZR (snr_db k)) in
  let throughput := LinkQuality.throughput data_rate ber in
  do delay <- LinkQuality.delay (snr_db k);
  do jitter <- LinkQuality.jitter (snr_db k);
  let plr := LinkQuality.plr ber in
  do live <-
     (if run_button k
      then do s <- Monitor.live_simulation (snr_db k) data_rate; ret (Some s)
      else ret None);
  ret (mkOutputs max_distance data_rate qos OFDM.subcarriers OFDM.power
                 schedule ber throughput delay jitter plr
                 LinkQuality.ber_curve live).

(** ** The BER line as computed (lines 80 and 83)

    [snr_db/10], [10 ** _], [np.exp _] and [0.5 * _] each return the
    binary64 number nearest to the exact result; [np.exp] and [**] are
    taken to be correctly rounded.  Negation is exact, and so are the
    constants [10] and [0.5] and the integer [snr_db]. *)
Module Computed.

Definition snr_lin (snr_db : Z) : R :=
  Binary64.round (Rpower 10 (Binary64.round (IZR snr_db / 10))).

Definition ber (snr_db : Z) : R :=
  Binary64.round (0.5 * Binary64.round (exp (- snr_lin snr_db))).

End Computed.

(** ** Vocabulary of the statements *)

(** The generator after [n] more raw samples, and the [i]-th raw sample
    still to come. *)
Definition advance (g : rng) (n : nat) : rng := mkRng (tape g) (pos g + n).
Definition sample_at (g : rng) (i : nat) : R := tape g (pos g + i).

(** The value [np.random.uniform(low, high)] takes on the [i]-th raw
    sample still to come. *)
Definition uniform_at (low high : R) (g : rng) (i : nat) : R :=
  low + (high - low) * sample_at g i.

(** The coverage formula with the divisions that cannot fail carried out. *)
Definition range_formula (freq : R) (tx_power : Z) (n : R) : R :=
  (3e8 / (freq * 1e9) / (4 * PI)) *
  Rpower 10 ((IZR tx_power - -90) / (10 * n)).

(** The normalised cumulative distribution [choice] searches in. *)
Definition cdf : list R := Scheduling.normalise (Scheduling.cumsum Scheduling.p).

(** The first three entries of that distribution: the binary64 numbers
    next to 0.3, 0.6 and 0.8 that the running sums produce. *)
Definition threshold_ugs : R := 5404319552844595 / 2 ^ 54.
Definition threshold_rtps : R := 5404319552844595 / 2 ^ 53.
Definition threshold_nrtps : R := 7205759403792794 / 2 ^ 53.

(** The terms of the series of [exp (-1)], without their signs. *)
Definition inv_fact (i : nat) : R := / INR (fact i).

(** The defaults of the controls, with the button pressed, and a generator
    whose raw samples are all 0. *)
Definition default_controls : controls :=
  mkControls 2.5 20 3.5 "QPSK (2 bits/sym)" 10 "UGS" 10 true.

Definition valid_controls (k : controls) : Prop :=
  2.3 <= freq k <= 3.5 /\ (10 <= tx_power k <= 40)%Z /\
  2 <= path_loss_exp k <= 5 /\ mod_scheme k ∈ Spectral.modulation_choices /\
  1.25 <= bw k <= 20 /\ qos_class k ∈ QoS.class_choices /\
  (0 <= snr_db k <= 30)%Z.

Definition zero_rng : rng := mkRng (fun _ : nat => 0) 0.

(** What a run of the monitoring loop leaves in its three lists, given
    how a throughput value is [stored] in [thr_vals]: the times are
    [0 .. 29] in order, and entry [t] of the other two lists is computed by
    the link-quality formulas from the configured SNR perturbed by the
    [t]-th draw of [uniform(-2, 2)]. *)
Definition appended_triples (stored : R -> R) (snr_db : Z) (data_rate : R)
           (g : rng) (s : Monitor.series) : Prop :=
  Monitor.x_vals s = map Z.of_nat (seq 0 30) /\
  length (Monitor.ber_vals s) = 30%nat /\
  length (Monitor.thr_vals s) = 30%nat /\
  forall t : nat, (t < 30)%nat ->
    let snr := IZR snr_db + uniform_at (-2) 2 g t in
    -2 <= uniform_at (-2) 2 g t <= 2 /\
    Monitor.x_vals s !! t = Some (Z.of_nat t) /\
    Monitor.ber_vals s !! t = Some (LinkQuality.ber snr) /\
    Monitor.thr_vals s !! t =
      Some (stored (LinkQuality.throughput data_rate (LinkQuality.ber snr))).

(** The controls with the button set to [b]. *)
Definition set_run_button (b : bool) (k : controls) : controls :=
  mkControls (freq k) (tx_power k) (path_loss_exp k) (mod_scheme k) (bw k)
             (qos_class k) (snr_db k) b.

(** * Properties *)

(** ** The monad and the generator *)

Lemma bind_ok_inv {A B} (m : M A) (k : A -> M B) (g : rng) (r : B * rng) :
  bind m k g = Ok r -> exists a g1, m g = Ok (a, g1) /\ k a g1 = Ok r.
Proof.
  unfold bind. destruct (m g) as [[a g1] | e]; [| discriminate].
  intros H. now exists a, g1.
Qed.

Lemma lift_ok_inv {A} (r : result A) (g g' : rng) (a : A) :
  lift r g = Ok (a, g') -> r = Ok a /\ g' = g.
Proof. unfold lift. destruct r; [| discriminate]. intros [= -> ->]. auto. Qed.

Lemma ret_ok_inv {A} (a b : A) (g g' : rng) :
  ret a g = Ok (b, g') -> b = a /\ g' = g.
Proof. unfold ret. intros [= -> ->]. auto. Qed.

Lemma advance_0 (g : rng) : advance g 0 = g.
Proof. destruct g as [t n]. unfold advance. simpl. f_equal. lia. Qed.

Lemma advance_advance (g : rng) (n m : nat) :
  advance (advance g n) m = advance g (n + m).
Proof. unfold advance. simpl. f_equal. lia. Qed.

Lemma sample_at_advance (g : rng) (n i : nat) :
  sample_at (advance g n) i = sample_at g (n + i).
Proof. unfold sample_at, advance. simpl. f_equal. lia. Qed.

Lemma valid_tape_zero : valid_tape zero_rng.
Proof. intros i. simpl. lra. Qed.

Lemma random_sample_spec (g : rng) :
  random_sample g = Ok (sample_at g 0, advance g 1).
Proof.
  unfold random_sample, sample_at, advance. do 3 f_equal; lia.
Qed.

Lemma uniform_spec (low high : R) (g : rng) :
  uniform low high g = Ok (uniform_at low high g 0, advance g 1).
Proof. unfold uniform, bind. now rewrite random_sample_spec. Qed.

Lemma uniform_at_range (low high : R) (g : rng) (i : nat) :
  valid_tape g -> low < high ->
  low <= uniform_at low high g i < high.
Proof.
  intros Hg Hlh. unfold uniform_at, sample_at.
  specialize (Hg (pos g + i)%nat). nra.
Qed.

Lemma random_samples_spec (n : nat) (g : rng) :
  random_samples n g = Ok (map (sample_at g) (seq 0 n), advance g n).
Proof.
  revert g. induction n as [| n IH]; intros g.
  - simpl. unfold ret. now rewrite advance_0.
  - cbn [random_samples]. unfold bind at 1. rewrite random_sample_spec.
    unfold bind at 1. rewrite IH. unfold ret.
    rewrite advance_advance. do 2 f_equal.
    cbn [seq map]. f_equal.
    rewrite <- seq_shift, map_map. apply map_ext. intros i.
    now rewrite sample_at_advance.
Qed.

Lemma truediv_ok (x y : R) : y <> 0 -> truediv x y = Ok (x / y).
Proof.
  intros H. unfold truediv.
  destruct (Req_dec_T y 0); [contradiction | reflexivity].
Qed.

Lemma truediv_int_ok (x : R) (y : Z) :
  y <> 0%Z -> truediv_int x y = Ok (x / IZR y).
Proof. intros H. unfold truediv_int. now apply Z.eqb_neq in H as ->. Qed.

Lemma truediv_int_raise (x : R) (y : Z) (e : exn) :
  truediv_int x y = Raise e <-> y = 0%Z /\ e = ZeroDivisionError.
Proof.
  unfold truediv_int. destruct (Z.eqb_spec y 0) as [-> | Hy].
  - split; [intros [= <-]; auto | intros [_ ->]; reflexivity].
  - split; [discriminate | intros [H _]; contradiction].
Qed.

(** ** Real-number facts used below *)

Lemma exp_INR_mult (n : nat) (x : R) : exp (INR n * x) = exp x ^ n.
Proof.
  induction n as [| n IH].
  - simpl. rewrite Rmult_0_l. apply exp_0.
  - rewrite S_INR, Rmult_plus_distr_r, Rmult_1_l, exp_plus, IH. simpl. ring.
Qed.

Lemma pow_3_2_2000 : 2 ^ 1075 < (3 / 2) ^ 2000.
Proof.
  assert (H : 2 ^ 1075 * 2 ^ 2000 < 3 ^ 2000).
  { rewrite <- pow_add, !pow_IZR. apply IZR_lt. vm_compute. reflexivity. }
  unfold Rdiv. rewrite Rpow_mult_distr, pow_inv.
  assert (Hp : 0 < 2 ^ 2000) by (apply pow_lt; lra).
  revert H Hp. generalize (2 ^ 1075) (2 ^ 2000) (3 ^ 2000). intros a b d H Hp.
  apply Rmult_lt_reg_r with b; [exact Hp |].
  rewrite Rmult_assoc, Rinv_l by lra. lra.
Qed.

(** [exp (-1000)] is positive and below [2 ^ -1075], half of the smallest
    positive binary64 number [2 ^ -1074]. *)
Lemma exp_m1000_tiny : 0 < exp (-1000) < / 2 ^ 1075.
Proof.
  split; [apply exp_pos |].
  replace (-1000) with (- (INR 2000 * (1 / 2))).
  2:{ rewrite INR_IZR_INZ. change (Z.of_nat 2000) with 2000%Z. lra. }
  rewrite exp_Ropp, exp_INR_mult.
  apply Rinv_lt_contravar.
  - apply Rmult_lt_0_compat; apply pow_lt; [lra | apply exp_pos].
  - eapply Rlt_le_trans; [apply pow_3_2_2000 |].
    apply pow_incr. pose proof (exp_ineq1 (1 / 2)). lra.
Qed.

(** [exp (-1)] as the sum of an alternating series, bracketed by its
    partial sums. *)
Lemma inv_fact_decreasing : Un_decreasing inv_fact.
Proof.
  intros n. unfold inv_fact.
  apply Rinv_le_contravar; [apply INR_fact_lt_0 |].
  apply le_INR, fact_le. lia.
Qed.

Lemma inv_fact_cv : Un_cv inv_fact 0.
Proof.
  intros eps Heps. destruct (cv_speed_pow_fact 1 eps Heps) as [n0 Hn0].
  exists n0. intros n Hn. specialize (Hn0 n Hn).
  unfold inv_fact. rewrite pow1 in Hn0. unfold Rdiv in Hn0.
  now rewrite Rmult_1_l in Hn0.
Qed.

Lemma exp_m1_cv : Un_cv (fun n => sum_f_R0 (tg_alt inv_fact) n) (exp (-1)).
Proof.
  unfold exp. destruct (exist_exp (-1)) as [x Hx]. simpl.
  intros eps Heps. destruct (Hx eps Heps) as [n0 Hn0].
  exists n0. intros n Hn. specialize (Hn0 n Hn).
  erewrite sum_eq; [exact Hn0 |].
  intros i _. unfold tg_alt, inv_fact. apply Rmult_comm.
Qed.

Lemma exp_m1_bracket (n : nat) :
  sum_f_R0 (tg_alt inv_fact) (S (2 * n)) <= exp (-1)
  <= sum_f_R0 (tg_alt inv_fact) (2 * n).
Proof.
  apply alternated_series_ineq;
    [apply inv_fact_decreasing | apply inv_fact_cv | apply exp_m1_cv].
Qed.

Lemma inv_fact_IZR (i : nat) : inv_fact i = / IZR (Z.of_nat (fact i)).
Proof. unfold inv_fact. now rewrite INR_IZR_INZ. Qed.

Ltac eval_fact H :=
  repeat match type of H with
         | context [Z.of_nat (fact ?k)] =>
             let z := eval vm_compute in (Z.of_nat (fact k)) in
             change (Z.of_nat (fact k)) with z in H
         end.

Lemma exp_m1_bounds : 0.367879 < exp (-1) < 0.367882.
Proof.
  pose proof (exp_m1_bracket 4) as [Hlo Hhi].
  cbn [Nat.mul Nat.add sum_f_R0] in Hlo, Hhi.
  unfold tg_alt in Hlo, Hhi.
  rewrite !inv_fact_IZR in Hlo. rewrite !inv_fact_IZR in Hhi.
  eval_fact Hlo. eval_fact Hhi.
  cbn [pow] in Hlo, Hhi.
  lra.
Qed.

(** ** Link quality: the BER formula *)

Lemma snr_lin_pos (s : R) : 0 < LinkQuality.snr_lin s.
Proof. apply exp_pos. Qed.

Lemma snr_lin_increasing (s1 s2 : R) :
  s1 < s2 -> LinkQuality.snr_lin s1 < LinkQuality.snr_lin s2.
Proof. intros H. unfold LinkQuality.snr_lin. apply Rpower_lt; lra. Qed.

Lemma ber_decreasing (s1 s2 : R) :
  s1 < s2 -> LinkQuality.ber s2 < LinkQuality.ber s1.
Proof.
  intros H. unfold LinkQuality.ber. apply snr_lin_increasing in H.
  apply Rmult_lt_compat_l; [lra |]. apply exp_increasing. lra.
Qed.

Lemma ber_bounds (s : R) : 0 < LinkQuality.ber s < 0.5.
Proof.
  unfold LinkQuality.ber. pose proof (snr_lin_pos s) as Hs.
  pose proof (exp_pos (- LinkQuality.snr_lin s)) as Hp.
  assert (Hlt : exp (- LinkQuality.snr_lin s) < 1).
  { rewrite <- exp_0. apply exp_increasing. lra. }
  lra.
Qed.

Lemma snr_lin_0 : LinkQuality.snr_lin 0 = 1.
Proof.
  unfold LinkQuality.snr_lin. replace (0 / 10) with 0 by lra.
  apply Rpower_O. lra.
Qed.

Lemma snr_lin_30 : LinkQuality.snr_lin 30 = 1000.
Proof.
  unfold LinkQuality.snr_lin. replace (30 / 10) with (INR 3) by (simpl; lra).
  rewrite Rpower_pow by lra. simpl. lra.
Qed.

Lemma snr_lin_29 : 746 < LinkQuality.snr_lin 29.
Proof.
  unfold LinkQuality.snr_lin.
  assert (Hpow : Rpower 10 (29 / 10) ^ 10 = 10 ^ 29).
  { rewrite <- (Rpower_pow 10) by apply exp_pos.
    rewrite Rpower_mult.
    replace (29 / 10 * INR 10) with (INR 29)
      by (rewrite !INR_IZR_INZ; change (Z.of_nat 29) with 29%Z;
          change (Z.of_nat 10) with 10%Z; lra).
    apply Rpower_pow. lra. }
  destruct (Rlt_le_dec 746 (Rpower 10 (29 / 10))) as [H | H]; [exact H |].
  exfalso.
  assert (Hle : Rpower 10 (29 / 10) ^ 10 <= 746 ^ 10).
  { apply pow_incr. split; [left; apply exp_pos | exact H]. }
  rewrite Hpow in Hle. revert Hle. rewrite !pow_IZR. intros Hle.
  apply le_IZR in Hle. vm_compute in Hle. now apply Hle.
Qed.

Lemma ratio_pow_lt (a b : Z) (n m : nat) :
  (0 < b)%Z ->
  (a ^ Z.of_nat n * 2 ^ Z.of_nat m < b ^ Z.of_nat n)%Z ->
  (IZR a / IZR b) ^ n < / 2 ^ m.
Proof.
  intros Hb H. apply IZR_lt in Hb.
  apply IZR_lt in H. rewrite mult_IZR, <- !pow_IZR in H.
  unfold Rdiv. rewrite Rpow_mult_distr, pow_inv.
  assert (Hbn : 0 < IZR b ^ n) by (apply pow_lt; exact Hb).
  assert (H2m : 0 < 2 ^ m) by (apply pow_lt; lra).
  revert H Hbn H2m. generalize (IZR a ^ n) (IZR b ^ n) (2 ^ m).
  intros x y z H Hy Hz.
  apply Rmult_lt_reg_r with z; [exact Hz |].
  rewrite Rinv_l by lra.
  apply Rmult_lt_reg_r with y; [exact Hy |].
  replace (x * / y * z * y) with (x * z * (/ y * y)) by ring.
  rewrite Rinv_l by lra. lra.
Qed.

Lemma exp_m746_tiny : exp (-746) < / 2 ^ 1075.
Proof.
  replace (-746) with (INR 746 * -1)
    by (rewrite INR_IZR_INZ; change (Z.of_nat 746) with 746%Z; lra).
  rewrite exp_INR_mult.
  pose proof exp_m1_bounds as [_ Hhi]. pose proof (exp_pos (-1)) as Hpos.
  set (c := 367882 / 1000000).
  assert (Hc : 0 <= exp (-1) <= c) by (unfold c; lra).
  assert (H95 : c ^ 95 < / 2 ^ 137)
    by (apply ratio_pow_lt; [lia | vm_compute; reflexivity]).
  assert (H81 : c ^ 81 < / 2 ^ 116)
    by (apply ratio_pow_lt; [lia | vm_compute; reflexivity]).
  apply Rle_lt_trans with (c ^ 746); [now apply pow_incr |].
  replace (c ^ 746) with ((c ^ 95) ^ 7 * c ^ 81)
    by (rewrite <- pow_mult, <- pow_add; reflexivity).
  replace (/ 2 ^ 1075) with ((/ 2 ^ 137) ^ 7 * / 2 ^ 116)
    by (rewrite pow_inv, <- pow_mult, <- Rinv_mult, <- pow_add; reflexivity).
  assert (Hc0 : 0 < c) by (unfold c; lra).
  assert (Ha : 0 < c ^ 95) by (apply pow_lt; exact Hc0).
  assert (Hb : 0 < c ^ 81) by (apply pow_lt; exact Hc0).
  assert (H7 : (c ^ 95) ^ 7 <= (/ 2 ^ 137) ^ 7) by (apply pow_incr; lra).
  assert (HA : 0 < (/ 2 ^ 137) ^ 7).
  { apply pow_lt, Rinv_0_lt_compat, pow_lt. lra. }
  apply Rle_lt_trans with ((/ 2 ^ 137) ^ 7 * c ^ 81).
  - apply Rmult_le_compat_r; [lra | exact H7].
  - apply Rmult_lt_compat_l; [exact HA | exact H81].
Qed.

(** The exact BER is positive everywhere, and from 29 dB on it is already
    below [2^-1075]: the strict decrease of the exact values is not visible
    in binary64 there, where all of them round to 0. *)
Lemma ber_below_binary64_from_29 (s : R) :
  29 <= s -> 0 < LinkQuality.ber s < / 2 ^ 1075.
Proof.
  intros Hs. split; [apply ber_bounds |].
  assert (Hlin : 746 < LinkQuality.snr_lin s).
  { destruct Hs as [Hs | <-]; [| apply snr_lin_29].
    apply Rlt_trans with (1 := snr_lin_29). now apply snr_lin_increasing. }
  unfold LinkQuality.ber.
  assert (Hexp : exp (- LinkQuality.snr_lin s) < exp (-746))
    by (apply exp_increasing; lra).
  pose proof exp_m746_tiny. pose proof (exp_pos (- LinkQuality.snr_lin s)).
  lra.
Qed.

(** ** Binary64 rounding *)

Lemma floor_spec (x : R) : IZR (Binary64.floor x) <= x < IZR (Binary64.floor x) + 1.
Proof.
  unfold Binary64.floor. rewrite minus_IZR.
  destruct (archimed x) as [H1 H2]. lra.
Qed.

Lemma floor_unique (x : R) (z : Z) : IZR z <= x < IZR z + 1 -> Binary64.floor x = z.
Proof.
  intros [H1 H2]. pose proof (floor_spec x) as [H3 H4].
  assert (Ha : (z < Binary64.floor x + 1)%Z).
  { apply lt_IZR. rewrite plus_IZR. lra. }
  assert (Hb : (Binary64.floor x < z + 1)%Z).
  { apply lt_IZR. rewrite plus_IZR. lra. }
  lia.
Qed.

Lemma nearest_even_error (y : R) :
  Rabs (IZR (Binary64.nearest_even y) - y) <= 1 / 2.
Proof.
  unfold Binary64.nearest_even. pose proof (floor_spec y) as [H1 H2].
  repeat destruct (Rlt_dec _ _); [| | destruct (Z.even _)];
    rewrite ?plus_IZR; apply Rabs_le; lra.
Qed.

Lemma nearest_even_small (y : R) :
  Rabs y < 1 / 2 -> Binary64.nearest_even y = 0%Z.
Proof.
  intros Hy. apply Rabs_def2 in Hy as [Hlt Hgt].
  unfold Binary64.nearest_even.
  destruct (Rle_lt_dec 0 y) as [Hpos | Hneg].
  - rewrite (floor_unique y 0) by lra.
    destruct (Rlt_dec _ _) as [_ | Hn]; [reflexivity | exfalso; lra].
  - rewrite (floor_unique y (-1)) by lra.
    destruct (Rlt_dec _ _) as [Hn | _]; [exfalso; lra |].
    destruct (Rlt_dec _ _) as [_ | Hn]; [reflexivity | exfalso; lra].
Qed.

Lemma ln_2_pos : 0 < ln 2.
Proof. rewrite <- ln_1. apply ln_increasing; lra. Qed.

Lemma Rpower_2_IZR (n : nat) : Rpower 2 (IZR (Z.of_nat n)) = 2 ^ n.
Proof. rewrite <- INR_IZR_INZ. apply Rpower_pow. lra. Qed.

Lemma log2_Rpower (x : R) : 0 < x -> Rpower 2 (ln x / ln 2) = x.
Proof.
  intros Hx. unfold Rpower. pose proof ln_2_pos.
  replace (ln x / ln 2 * ln 2) with (ln x) by (field; lra).
  now apply exp_ln.
Qed.

(** A result of magnitude below [2^-1075] is rounded to zero. *)
Lemma round_underflow (x : R) :
  Rabs x < / 2 ^ 1075 -> Binary64.round x = 0.
Proof.
  intros Hx. unfold Binary64.round.
  destruct (Req_dec_T x 0) as [_ | Hx0]; [reflexivity |].
  assert (Hpos : 0 < Rabs x) by now apply Rabs_pos_lt.
  assert (Hexp : Binary64.ulp_exponent x = (-1074)%Z).
  { unfold Binary64.ulp_exponent.
    pose proof (floor_spec (ln (Rabs x) / ln 2)) as [Hf _].
    assert (Hlog : ln (Rabs x) / ln 2 < IZR (-1075)).
    { pose proof ln_2_pos as H2.
      apply Rmult_lt_reg_r with (ln 2); [exact H2 |].
      unfold Rdiv. rewrite Rmult_assoc, Rinv_l, Rmult_1_r by lra.
      replace (IZR (-1075) * ln 2) with (ln (/ 2 ^ 1075)).
      - apply ln_increasing; assumption.
      - rewrite ln_Rinv by (apply pow_lt; lra).
        rewrite ln_pow by lra. rewrite INR_IZR_INZ.
        change (Z.of_nat 1075) with 1075%Z. lra. }
    assert (Hz : (Binary64.floor (ln (Rabs x) / ln 2) < -1075)%Z).
    { apply lt_IZR. lra. }
    lia. }
  rewrite Hexp.
  rewrite nearest_even_small; [apply Rmult_0_l |].
  replace (- IZR (-1074)) with (IZR (Z.of_nat 1074))
    by (change (Z.of_nat 1074) with 1074%Z; lra).
  rewrite Rpower_2_IZR, Rabs_mult.
  assert (Hp : 0 < 2 ^ 1074) by (apply pow_lt; lra).
  rewrite (Rabs_pos_eq (2 ^ 1074)) by lra.
  apply Rmult_lt_reg_r with (/ 2 ^ 1074);
    [apply Rinv_0_lt_compat; exact Hp |].
  rewrite Rmult_assoc, Rinv_r, Rmult_1_r by lra.
  replace (1 / 2 * / 2 ^ 1074) with (/ 2 ^ 1075); [exact Hx |].
  change 1075%nat with (S 1074). rewrite <- tech_pow_Rmult.
  rewrite Rinv_mult. lra.
Qed.

(** In the normal range, rounding changes a number by at most the relative
    error [2^-53]. *)
Lemma round_error (x : R) :
  / 2 ^ 1022 <= x -> Rabs (Binary64.round x - x) <= x * / 2 ^ 53.
Proof.
  intros Hx.
  assert (Hmin : 0 < / 2 ^ 1022) by (apply Rinv_0_lt_compat, pow_lt; lra).
  unfold Binary64.round.
  destruct (Req_dec_T x 0) as [Hx0 | _]; [lra |].
  unfold Binary64.ulp_exponent. rewrite (Rabs_pos_eq x) by lra.
  set (l := ln x / ln 2).
  pose proof (floor_spec l) as [Hk1 Hk2].
  set (k := Binary64.floor l) in *.
  pose proof ln_2_pos as H2.
  assert (Hl : IZR (-1022) <= l).
  { unfold l. apply Rmult_le_reg_r with (ln 2); [exact H2 |].
    unfold Rdiv. rewrite Rmult_assoc, Rinv_l, Rmult_1_r by lra.
    replace (IZR (-1022) * ln 2) with (ln (/ 2 ^ 1022)).
    - destruct Hx as [Hx | <-]; [left; now apply ln_increasing | right; reflexivity].
    - rewrite ln_Rinv by (apply pow_lt; lra).
      rewrite ln_pow by lra. rewrite INR_IZR_INZ.
      change (Z.of_nat 1022) with 1022%Z. lra. }
  assert (Hk : (-1022 <= k)%Z).
  { assert (H : (-1022 < k + 1)%Z) by (apply lt_IZR; rewrite plus_IZR; lra).
    lia. }
  rewrite Z.max_l by lia.
  set (E := Rpower 2 (IZR (k - 52))).
  assert (HE : 0 < E) by apply exp_pos.
  rewrite Rpower_Ropp. fold E.
  pose proof (nearest_even_error (x * / E)) as Herr.
  assert (HEx : E <= x * / 2 ^ 52).
  { unfold E.
    replace (IZR (k - 52)) with (IZR k + - IZR (Z.of_nat 52))
      by (rewrite minus_IZR; change (Z.of_nat 52) with 52%Z; lra).
    rewrite Rpower_plus, Rpower_Ropp, Rpower_2_IZR.
    apply Rmult_le_compat_r.
    - left. apply Rinv_0_lt_compat, pow_lt. lra.
    - apply Rle_trans with (Rpower 2 l); [apply Rle_Rpower; lra |].
      right. apply log2_Rpower. lra. }
  assert (Hhalf : / 2 ^ 53 = / 2 ^ 52 / 2).
  { change 53%nat with (S 52). rewrite <- tech_pow_Rmult, Rinv_mult. lra. }
  rewrite Hhalf.
  set (n := IZR (Binary64.nearest_even (x * / E))) in *.
  replace (n * E - x) with ((n - x * / E) * E) by (field; lra).
  rewrite Rabs_mult, (Rabs_pos_eq E) by lra.
  apply Rle_trans with (1 / 2 * E); [| lra].
  apply Rmult_le_compat_r; lra.
Qed.

Lemma round_bounds (x : R) :
  / 2 ^ 1022 <= x ->
  x * (1 - / 2 ^ 53) <= Binary64.round x <= x * (1 + / 2 ^ 53).
Proof.
  intros Hx. pose proof (round_error x Hx) as H.
  revert H. unfold Rabs. destruct (Rcase_abs _); lra.
Qed.

Lemma normal_from_1 (x : R) : / 1000 <= x -> / 2 ^ 1022 <= x.
Proof.
  intros Hx. apply Rle_trans with (/ 1000); [| exact Hx].
  apply Rinv_le_contravar; [lra |].
  rewrite pow_IZR. apply IZR_le. vm_compute. discriminate.
Qed.

Lemma nearest_even_near (y : R) (m : Z) :
  Rabs (y - IZR m) < 1 / 2 -> Binary64.nearest_even y = m.
Proof.
  intros Hy. apply Rabs_def2 in Hy as [Hlt Hgt].
  unfold Binary64.nearest_even.
  destruct (Rle_lt_dec (IZR m) y) as [Hge | Hl].
  - rewrite (floor_unique y m) by lra.
    destruct (Rlt_dec _ _) as [_ | Hn]; [reflexivity | exfalso; lra].
  - rewrite (floor_unique y (m - 1)) by (rewrite minus_IZR; lra).
    rewrite minus_IZR.
    destruct (Rlt_dec _ _) as [Hn | _]; [exfalso; lra |].
    destruct (Rlt_dec _ _) as [_ | Hn]; [lia | exfalso; lra].
Qed.

Lemma nearest_even_tie_odd (y : R) (f : Z) :
  y = IZR f + 1 / 2 -> Z.even f = false ->
  Binary64.nearest_even y = (f + 1)%Z.
Proof.
  intros -> Hodd. unfold Binary64.nearest_even.
  rewrite (floor_unique (IZR f + 1 / 2) f) by lra.
  destruct (Rlt_dec _ _) as [Hn | _]; [exfalso; lra |].
  destruct (Rlt_dec _ _) as [Hn | _]; [exfalso; lra |].
  now rewrite Hodd.
Qed.

(** Rounding a number of the binade [2^-a, 2^(1-a)): the unit in the last
    place is [2^-(a+52)]. *)
Lemma round_binade (x : R) (a : nat) (m : Z) :
  (a <= 1022)%nat ->
  / 2 ^ a <= x < 2 * / 2 ^ a ->
  Binary64.nearest_even (x * 2 ^ (a + 52)) = m ->
  Binary64.round x = IZR m / 2 ^ (a + 52).
Proof.
  intros Ha [Hlo Hhi] Hm.
  assert (Hpa : 0 < 2 ^ a) by (apply pow_lt; lra).
  assert (Hia : 0 < / 2 ^ a) by now apply Rinv_0_lt_compat.
  unfold Binary64.round.
  destruct (Req_dec_T x 0) as [Hx0 | _]; [lra |].
  assert (Hexp : Binary64.ulp_exponent x = (- Z.of_nat (a + 52))%Z).
  { unfold Binary64.ulp_exponent. rewrite Rabs_pos_eq by lra.
    rewrite (floor_unique _ (- Z.of_nat a)); [lia |].
    pose proof ln_2_pos as H2.
    assert (Hln : ln (/ 2 ^ a) = IZR (- Z.of_nat a) * ln 2).
    { rewrite ln_Rinv, ln_pow by lra. rewrite opp_IZR, <- INR_IZR_INZ. ring. }
    split.
    - apply Rmult_le_reg_r with (ln 2); [exact H2 |].
      unfold Rdiv. rewrite Rmult_assoc, Rinv_l, Rmult_1_r by lra.
      rewrite <- Hln.
      destruct Hlo as [Hlo | <-]; [left; now apply ln_increasing | right; reflexivity].
    - apply Rmult_lt_reg_r with (ln 2); [exact H2 |].
      unfold Rdiv. rewrite Rmult_assoc, Rinv_l, Rmult_1_r by lra.
      rewrite Rmult_plus_distr_r, <- Hln, Rmult_1_l, <- ln_mult by lra.
      apply ln_increasing; lra. }
  rewrite Hexp.
  rewrite opp_IZR, Ropp_involutive, Rpower_Ropp, Rpower_2_IZR, Hm.
  reflexivity.
Qed.

Ltac round_near a m :=
  apply (round_binade _ a m);
  [lia | unfold threshold_ugs, threshold_rtps, threshold_nrtps; lra
  | apply nearest_even_near; unfold threshold_ugs, threshold_rtps, threshold_nrtps;
    cbn [Nat.add]; apply Rabs_def1; lra].

Lemma round_03 : Binary64.round 0.3 = threshold_ugs.
Proof. unfold threshold_ugs. change (2 ^ 54) with (2 ^ (2 + 52)). round_near 2%nat 5404319552844595%Z. Qed.

Lemma round_02 : Binary64.round 0.2 = 7205759403792794 / 2 ^ 55.
Proof. change (2 ^ 55) with (2 ^ (3 + 52)). round_near 3%nat 7205759403792794%Z. Qed.

Lemma round_sum_2 : Binary64.round (threshold_ugs + threshold_ugs) = threshold_rtps.
Proof.
  unfold threshold_rtps. change (2 ^ 53) with (2 ^ (1 + 52)).
  round_near 1%nat 5404319552844595%Z.
Qed.

Lemma round_sum_3 :
  Binary64.round (threshold_rtps + 7205759403792794 / 2 ^ 55) = threshold_nrtps.
Proof.
  unfold threshold_nrtps.
  change (7205759403792794 / 2 ^ 53)
    with (IZR (7205759403792793 + 1) / 2 ^ (1 + 52)).
  apply (round_binade _ 1%nat).
  - lia.
  - unfold threshold_rtps. lra.
  - apply nearest_even_tie_odd; [unfold threshold_rtps; cbn [Nat.add]; lra | reflexivity].
Qed.

Lemma round_sum_4 :
  Binary64.round (threshold_nrtps + 7205759403792794 / 2 ^ 55) = 1.
Proof.
  apply eq_trans with (4503599627370496 / 2 ^ (0 + 52));
    [| cbn [Nat.add]; lra].
  apply (round_binade _ 0%nat).
  - lia.
  - unfold threshold_nrtps. lra.
  - apply nearest_even_near. unfold threshold_nrtps. cbn [Nat.add].
    apply Rabs_def1; lra.
Qed.

Lemma round_threshold_ugs : Binary64.round (threshold_ugs / 1) = threshold_ugs.
Proof.
  unfold threshold_ugs at 2. change (2 ^ 54) with (2 ^ (2 + 52)).
  round_near 2%nat 5404319552844595%Z.
Qed.

Lemma round_threshold_rtps : Binary64.round (threshold_rtps / 1) = threshold_rtps.
Proof.
  unfold threshold_rtps at 2. change (2 ^ 53) with (2 ^ (1 + 52)).
  round_near 1%nat 5404319552844595%Z.
Qed.

Lemma round_threshold_nrtps : Binary64.round (threshold_nrtps / 1) = threshold_nrtps.
Proof.
  unfold threshold_nrtps at 2. change (2 ^ 53) with (2 ^ (1 + 52)).
  round_near 1%nat 7205759403792794%Z.
Qed.

Lemma round_1 : Binary64.round (1 / 1) = 1.
Proof.
  apply eq_trans with (4503599627370496 / 2 ^ (0 + 52));
    [| cbn [Nat.add]; lra].
  apply (round_binade _ 0%nat).
  - lia.
  - lra.
  - apply nearest_even_near. cbn [Nat.add]. apply Rabs_def1; lra.
Qed.

(** ** The computed BER *)

Lemma unit_roundoff_small : / 2 ^ 53 <= / 1000.
Proof.
  apply Rinv_le_contravar; [lra |].
  rewrite pow_IZR. apply IZR_le. vm_compute. discriminate.
Qed.

Lemma Rpower_10_lower : 749 < Rpower 10 (23 / 8).
Proof.
  assert (Hpow : Rpower 10 (23 / 8) ^ 8 = 10 ^ 23).
  { rewrite <- (Rpower_pow 8) by apply exp_pos.
    rewrite Rpower_mult.
    replace (23 / 8 * INR 8) with (INR 23)
      by (rewrite !INR_IZR_INZ; change (Z.of_nat 23) with 23%Z;
          change (Z.of_nat 8) with 8%Z; lra).
    apply Rpower_pow. lra. }
  destruct (Rlt_le_dec 749 (Rpower 10 (23 / 8))) as [H | H]; [exact H |].
  exfalso.
  assert (Hle : Rpower 10 (23 / 8) ^ 8 <= 749 ^ 8).
  { apply pow_incr. split; [left; apply exp_pos | exact H]. }
  rewrite Hpow in Hle. revert Hle. rewrite !pow_IZR. intros Hle.
  apply le_IZR in Hle. vm_compute in Hle. now apply Hle.
Qed.

Lemma computed_snr_lin_large (s : Z) :
  (29 <= s)%Z -> 746 <= Computed.snr_lin s.
Proof.
  intros Hs. unfold Computed.snr_lin. apply IZR_le in Hs.
  pose proof unit_roundoff_small as Hu.
  assert (Hq : 23 / 8 <= Binary64.round (IZR s / 10)).
  { eapply Rle_trans; [| apply round_bounds, normal_from_1; lra]. nra. }
  assert (Hp : 749 <= Rpower 10 (Binary64.round (IZR s / 10))).
  { left. eapply Rlt_le_trans; [apply Rpower_10_lower |].
    apply Rle_Rpower; lra. }
  eapply Rle_trans; [| apply round_bounds, normal_from_1; lra]. nra.
Qed.

Lemma computed_ber_underflow (s : Z) :
  (29 <= s)%Z -> Computed.ber s = 0.
Proof.
  intros Hs. unfold Computed.ber.
  pose proof (computed_snr_lin_large s Hs) as Hlin.
  rewrite (round_underflow (exp _)).
  - rewrite Rmult_0_r. unfold Binary64.round.
    destruct (Req_dec_T 0 0); [reflexivity | contradiction].
  - rewrite Rabs_pos_eq by (left; apply exp_pos).
    apply Rle_lt_trans with (exp (-746)); [| apply exp_m746_tiny].
    destruct Hlin as [Hlin | <-]; [left; apply exp_increasing; lra | right; reflexivity].
Qed.

Lemma round_0 : Binary64.round 0 = 0.
Proof.
  unfold Binary64.round. destruct (Req_dec_T 0 0); [reflexivity | contradiction].
Qed.

Lemma computed_ber_0 : 0.183 < Computed.ber 0 < 0.185.
Proof.
  unfold Computed.ber, Computed.snr_lin.
  replace (0 / 10) with 0 by lra.
  rewrite round_0, Rpower_O by lra.
  pose proof unit_roundoff_small as Hu.
  assert (Hu0 : 0 < / 2 ^ 53) by (apply Rinv_0_lt_compat, pow_lt; lra).
  pose proof (round_bounds 1 (normal_from_1 1 ltac:(lra))) as Hone.
  set (one := Binary64.round 1) in *.
  pose proof exp_m1_bounds as He.
  assert (Hexp : 0.3675 <= exp (- one) <= 0.3683).
  { replace (- one) with (-1 + (1 - one)) by ring. rewrite exp_plus.
    pose proof (exp_pos (1 - one)) as Hp.
    assert (Hlo : 1 + (1 - one) <= exp (1 - one)) by apply exp_ineq1_le.
    assert (Hhi : exp (1 - one) * (1 - (1 - one)) <= 1).
    { pose proof (exp_ineq1_le (- (1 - one))) as H.
      rewrite exp_Ropp in H.
      apply Rmult_le_reg_r with (/ exp (1 - one));
        [now apply Rinv_0_lt_compat |].
      rewrite Rmult_1_l, (Rmult_comm (exp _)), Rmult_assoc, Rinv_r by lra.
      lra. }
    nra. }
  pose proof (round_bounds _ (normal_from_1 (exp (- one)) ltac:(lra))) as Hr.
  set (e := Binary64.round (exp (- one))) in *.
  assert (He' : 0.367 <= e <= 0.369) by nra.
  pose proof (round_bounds _ (normal_from_1 (0.5 * e) ltac:(lra))) as Hb.
  nra.
Qed.

Lemma unit_roundoff_tiny : / 2 ^ 53 < / 10 ^ 15.
Proof.
  apply Rinv_lt_contravar; [apply Rmult_lt_0_compat; apply pow_lt; lra |].
  rewrite !pow_IZR. apply IZR_lt. vm_compute. reflexivity.
Qed.

Lemma unit_roundoff_pos : 0 < / 2 ^ 53.
Proof. apply Rinv_0_lt_compat, pow_lt. lra. Qed.

Lemma exp_1_bounds : 2.718 < exp 1 < 2.7183.
Proof.
  pose proof exp_m1_bounds as [Hlo Hhi].
  assert (H : exp 1 * exp (-1) = 1).
  { rewrite <- exp_plus. replace (1 + -1) with 0 by lra. apply exp_0. }
  pose proof (exp_pos 1). split; nra.
Qed.

Lemma ln_10_bounds : 0 < ln 10 < 3.
Proof.
  split.
  - rewrite <- ln_1. apply ln_increasing; lra.
  - rewrite <- (ln_exp 3). apply ln_increasing; [lra |].
    replace 3 with (INR 3 * 1) by (simpl; lra).
    rewrite exp_INR_mult. pose proof exp_1_bounds. simpl. nra.
Qed.

Lemma exp_small_lower (a : R) : 1 - a <= exp (- a).
Proof.
  destruct (Req_dec a 0) as [-> | Ha].
  - rewrite Ropp_0, exp_0. lra.
  - left. pose proof (exp_ineq1 (- a)). lra.
Qed.

Lemma exp_small_upper (a : R) : 0 <= a <= 1 / 2 -> exp a <= 1 + 2 * a.
Proof.
  intros Ha. pose proof (exp_small_lower a) as Hl.
  assert (H : exp a * exp (- a) = 1).
  { rewrite <- exp_plus. replace (a + - a) with 0 by lra. apply exp_0. }
  pose proof (exp_pos a). pose proof (exp_pos (- a)). nra.
Qed.

Lemma exp_perturb (d e : R) :
  Rabs d <= e -> e <= 1 / 2 -> 1 - e <= exp d <= 1 + 2 * e.
Proof.
  intros Hd He.
  assert (Hd' : - e <= d <= e) by (unfold Rabs in Hd; destruct (Rcase_abs d); lra).
  split.
  - apply Rle_trans with (exp (- e)); [apply exp_small_lower |].
    destruct (proj1 Hd') as [H | <-]; [left; now apply exp_increasing | right; reflexivity].
  - apply Rle_trans with (exp e); [| apply exp_small_upper; lra].
    destruct (proj2 Hd') as [H | ->]; [left; now apply exp_increasing | right; reflexivity].
Qed.

Lemma Rpower_10_perturb (x y d : R) :
  Rabs (y - x) <= d -> d <= 1 / 6 ->
  Rpower 10 x * (1 - 3 * d) <= Rpower 10 y <= Rpower 10 x * (1 + 6 * d).
Proof.
  intros Hd Hsmall.
  assert (Hy : Rpower 10 y = Rpower 10 x * exp ((y - x) * ln 10)).
  { unfold Rpower. rewrite <- exp_plus. f_equal. ring. }
  pose proof ln_10_bounds as [Hl0 Hl3].
  assert (Hd0 : 0 <= d) by (pose proof (Rabs_pos (y - x)); lra).
  assert (He : Rabs ((y - x) * ln 10) <= 3 * d).
  { rewrite Rabs_mult, (Rabs_pos_eq (ln 10)) by lra.
    pose proof (Rabs_pos (y - x)). nra. }
  pose proof (exp_perturb _ _ He ltac:(lra)) as [H1 H2].
  assert (Hp : 0 < Rpower 10 x) by apply exp_pos.
  rewrite Hy. split; nra.
Qed.

Lemma computed_quotient (s : Z) :
  (0 <= s <= 28)%Z ->
  Rabs (Binary64.round (IZR s / 10) - IZR s / 10) <= 3 * / 2 ^ 53.
Proof.
  intros Hs. pose proof unit_roundoff_pos as Hu.
  destruct (Z.eq_dec s 0%Z) as [-> | Hne].
  - replace (0 / 10) with 0 by lra. rewrite round_0.
    rewrite Rminus_diag, Rabs_R0. lra.
  - assert (H1 : 1 <= IZR s) by (apply IZR_le; lia).
    assert (H28 : IZR s <= 28) by (apply IZR_le; lia).
    eapply Rle_trans; [apply round_error, normal_from_1; lra |]. nra.
Qed.

Lemma Rpower_10_upper : Rpower 10 (14 / 5) < 631.
Proof.
  assert (Hpow : Rpower 10 (14 / 5) ^ 5 = 10 ^ 14).
  { rewrite <- (Rpower_pow 5) by apply exp_pos.
    rewrite Rpower_mult.
    replace (14 / 5 * INR 5) with (INR 14)
      by (rewrite !INR_IZR_INZ; change (Z.of_nat 14) with 14%Z;
          change (Z.of_nat 5) with 5%Z; lra).
    apply Rpower_pow. lra. }
  destruct (Rlt_le_dec (Rpower 10 (14 / 5)) 631) as [H | H]; [exact H |].
  exfalso.
  assert (Hle : 631 ^ 5 <= Rpower 10 (14 / 5) ^ 5).
  { apply pow_incr. lra. }
  rewrite Hpow in Hle. lra.
Qed.

Lemma snr_lin_slider (s : Z) :
  (0 <= s <= 28)%Z -> 1 <= LinkQuality.snr_lin (IZR s) < 631.
Proof.
  intros Hs.
  assert (H0 : 0 <= IZR s) by (apply IZR_le; lia).
  assert (H28 : IZR s <= 28) by (apply IZR_le; lia).
  split.
  - rewrite <- snr_lin_0.
    destruct H0 as [H0 | <-]; [left; now apply snr_lin_increasing | right; reflexivity].
  - apply Rle_lt_trans with (LinkQuality.snr_lin 28).
    + destruct H28 as [H | ->]; [left; now apply snr_lin_increasing | right; reflexivity].
    + unfold LinkQuality.snr_lin. replace (28 / 10) with (14 / 5) by lra.
      apply Rpower_10_upper.
Qed.

Lemma computed_snr_lin_near (s : Z) :
  (0 <= s <= 28)%Z ->
  Rabs (Computed.snr_lin s - LinkQuality.snr_lin (IZR s)) <= / 10 ^ 10.
Proof.
  intros Hs. pose proof unit_roundoff_pos as Hu.
  pose proof unit_roundoff_tiny as Hut.
  assert (Ht : / 10 ^ 15 = 1 / 1000000000000000) by lra.
  pose proof (snr_lin_slider s Hs) as [HP1 HP2].
  pose proof (computed_quotient s Hs) as Hq.
  pose proof (Rpower_10_perturb _ _ _ Hq ltac:(lra)) as [Hp1 Hp2].
  fold (LinkQuality.snr_lin (IZR s)) in Hp1, Hp2.
  unfold Computed.snr_lin.
  set (P := LinkQuality.snr_lin (IZR s)) in *.
  set (p := Rpower 10 (Binary64.round (IZR s / 10))) in *.
  assert (Hp : / 1000 <= p) by nra.
  pose proof (round_bounds p (normal_from_1 p Hp)) as [HL1 HL2].
  set (u := / 2 ^ 53) in *.
  apply Rabs_le. replace (/ 10 ^ 10) with (1 / 10000000000) by lra.
  split; nra.
Qed.

Lemma exp_m632_normal : / 2 ^ 1000 <= exp (-632).
Proof.
  assert (H2 : exp 2 < 8).
  { replace 2 with (INR 2 * 1) by (simpl; lra).
    rewrite exp_INR_mult. pose proof exp_1_bounds. simpl. nra. }
  assert (H632 : exp 632 <= 2 ^ 1000).
  { replace 632 with (INR 316 * 2)
      by (rewrite INR_IZR_INZ; change (Z.of_nat 316) with 316%Z; lra).
    rewrite exp_INR_mult.
    apply Rle_trans with (8 ^ 316).
    - apply pow_incr. pose proof (exp_pos 2). lra.
    - rewrite !pow_IZR. apply IZR_le. vm_compute. discriminate. }
  assert (Hinv : exp (-632) = / exp 632).
  { replace (-632) with (- 632) by lra. apply exp_Ropp. }
  rewrite Hinv. apply Rinv_le_contravar; [apply exp_pos | exact H632].
Qed.

Lemma normal_from_1000 (x : R) : / 2 ^ 1002 <= x -> / 2 ^ 1022 <= x.
Proof.
  intros Hx. apply Rle_trans with (/ 2 ^ 1002); [| exact Hx].
  apply Rinv_le_contravar; [apply pow_lt; lra |].
  apply Rle_pow; [lra | lia].
Qed.

Lemma computed_ber_near (s : Z) :
  (0 <= s <= 28)%Z ->
  LinkQuality.ber (IZR s) * (1 - / 10 ^ 9) <= Computed.ber s
  <= LinkQuality.ber (IZR s) * (1 + / 10 ^ 9).
Proof.
  intros Hs. pose proof unit_roundoff_pos as Hu.
  pose proof unit_roundoff_tiny as Hut.
  assert (Ht : / 10 ^ 15 = 1 / 1000000000000000) by lra.
  pose proof (snr_lin_slider s Hs) as [HP1 HP2].
  pose proof (computed_snr_lin_near s Hs) as HL.
  replace (/ 10 ^ 10) with (1 / 10000000000) in HL by lra.
  unfold Computed.ber, LinkQuality.ber.
  set (P := LinkQuality.snr_lin (IZR s)) in *.
  set (L := Computed.snr_lin s) in *.
  assert (HL' : Rabs (P - L) <= 1 / 10000000000)
    by (now rewrite Rabs_minus_sym).
  pose proof (exp_perturb _ _ HL' ltac:(lra)) as [He1 He2].
  assert (HE : exp (- L) = exp (- P) * exp (P - L)).
  { rewrite <- exp_plus. f_equal. ring. }
  assert (Hlow : / 2 ^ 1000 <= exp (- L)).
  { eapply Rle_trans; [apply exp_m632_normal |].
    left. apply exp_increasing.
    unfold Rabs in HL; destruct (Rcase_abs _); lra. }
  assert (Hpow : / 2 ^ 1002 = / 2 ^ 1000 / 4).
  { replace 1002%nat with (1000 + 2)%nat by reflexivity.
    rewrite pow_add, Rinv_mult. simpl. lra. }
  assert (Hpos : 0 < / 2 ^ 1000) by (apply Rinv_0_lt_compat, pow_lt; lra).
  set (E := exp (- L)) in *.
  pose proof (round_bounds E (normal_from_1000 E ltac:(lra))) as [Hr1 Hr2].
  set (Er := Binary64.round E) in *.
  assert (HH : / 2 ^ 1002 <= 0.5 * Er) by nra.
  pose proof (round_bounds _ (normal_from_1000 _ HH)) as [Hb1 Hb2].
  set (B := Binary64.round (0.5 * Er)) in *.
  set (u := / 2 ^ 53) in *.
  assert (Hx : 0 < exp (- P)) by apply exp_pos.
  set (x := exp (- P)) in *. set (y := exp (P - L)) in *.
  replace (/ 10 ^ 9) with (1 / 1000000000) by lra.
  assert (HEr : x * (1 - 2 / 10000000000) <= Er <= x * (1 + 3 / 10000000000)).
  { subst E. rewrite HE in Hr1, Hr2. split; nra. }
  split; nra.
Qed.

Lemma Rpower_10_tenth : 1.25 <= Rpower 10 (1 / 10).
Proof.
  assert (Hpow : Rpower 10 (1 / 10) ^ 10 = 10).
  { rewrite <- (Rpower_pow 10) by apply exp_pos.
    rewrite Rpower_mult.
    replace (1 / 10 * INR 10) with 1
      by (rewrite INR_IZR_INZ; change (Z.of_nat 10) with 10%Z; lra).
    apply Rpower_1. lra. }
  destruct (Rle_lt_dec 1.25 (Rpower 10 (1 / 10))) as [H | H]; [exact H |].
  exfalso.
  assert (Hle : Rpower 10 (1 / 10) ^ 10 <= 1.25 ^ 10).
  { apply pow_incr. split; [left; apply exp_pos | lra]. }
  rewrite Hpow in Hle. lra.
Qed.

Lemma ber_step (s : R) :
  0 <= s -> LinkQuality.ber (s + 1) <= 0.8 * LinkQuality.ber s.
Proof.
  intros Hs. unfold LinkQuality.ber.
  assert (Hlin : LinkQuality.snr_lin (s + 1)
                 = LinkQuality.snr_lin s * Rpower 10 (1 / 10)).
  { unfold LinkQuality.snr_lin. rewrite <- Rpower_plus. f_equal. lra. }
  assert (H1 : 1 <= LinkQuality.snr_lin s).
  { rewrite <- snr_lin_0.
    destruct Hs as [Hs | <-];
      [left; now apply snr_lin_increasing | right; reflexivity]. }
  pose proof Rpower_10_tenth as Ht.
  assert (Hgap : LinkQuality.snr_lin s + 1 / 4 <= LinkQuality.snr_lin (s + 1))
    by (rewrite Hlin; nra).
  assert (Hexp : exp (- LinkQuality.snr_lin (s + 1))
                 <= exp (- LinkQuality.snr_lin s) * exp (- (1 / 4))).
  { rewrite <- exp_plus.
    destruct Hgap as [Hgap | Hgap];
      [left; apply exp_increasing; lra | right; f_equal; lra]. }
  assert (Hq : exp (- (1 / 4)) <= 0.8).
  { pose proof (exp_small_lower (- (1 / 4))) as Hl.
    rewrite Ropp_involutive in Hl.
    assert (H : exp (1 / 4) * exp (- (1 / 4)) = 1).
    { rewrite <- exp_plus. replace (1 / 4 + - (1 / 4)) with 0 by lra.
      apply exp_0. }
    pose proof (exp_pos (- (1 / 4))). nra. }
  pose proof (exp_pos (- LinkQuality.snr_lin s)). nra.
Qed.

Lemma computed_ber_pos (s : Z) : (0 <= s <= 28)%Z -> 0 < Computed.ber s.
Proof.
  intros Hs. pose proof (computed_ber_near s Hs) as [H _].
  pose proof (ber_bounds (IZR s)) as [Hb _].
  eapply Rlt_le_trans; [| exact H].
  apply Rmult_lt_0_compat; [exact Hb | lra].
Qed.

Lemma computed_ber_decreasing (s1 s2 : Z) :
  (0 <= s1 < s2)%Z -> (s2 <= 29)%Z -> Computed.ber s2 < Computed.ber s1.
Proof.
  intros Hs1 Hs2.
  destruct (Z.eq_dec s2 29%Z) as [-> | Hne].
  - rewrite (computed_ber_underflow 29) by lia.
    apply computed_ber_pos. lia.
  - pose proof (computed_ber_near s1 ltac:(lia)) as [Hlo _].
    pose proof (computed_ber_near s2 ltac:(lia)) as [_ Hhi].
    assert (Hstep : LinkQuality.ber (IZR s2) <= 0.8 * LinkQuality.ber (IZR s1)).
    { apply Rle_trans with (LinkQuality.ber (IZR s1 + 1)).
      - assert (Hle : IZR s1 + 1 <= IZR s2)
          by (rewrite <- plus_IZR; apply IZR_le; lia).
        destruct Hle as [Hlt | <-];
          [left; now apply ber_decreasing | right; reflexivity].
      - apply ber_step. apply IZR_le. lia. }
    pose proof (ber_bounds (IZR s1)) as [Hb1 _].
    pose proof (ber_bounds (IZR s2)) as [Hb2 _].
    replace (/ 10 ^ 9) with (1 / 1000000000) in Hlo, Hhi by lra.
    nra.
Qed.

(** C1 as amended: the exact value of the BER [0.5 * e^(-SNR_linear)], with
    the SNR converted from dB to linear scale, is strictly decreasing in
    the SNR, and the value the script computes is strictly decreasing over
    the slider values 0 to 29 dB; at 0 dB the exact value is
    [0.5 * e^(-1)], which is 0.1839 to four places, and the computed value
    lies between 0.183 and 0.185; at 30 dB the exact value is
    [0.5 * e^(-1000)], a positive real below [2^-1075], and the computed
    value underflows to 0, as the computed value at 29 dB already does:
    the step from 29 to 30 dB is the only one of the slider without a
    strict decrease. *)
Theorem ber_exact_decreasing_computed_underflow (s1 s2 : R) (Hlt : s1 < s2) :
  LinkQuality.ber s2 < LinkQuality.ber s1 /\
  (forall z1 z2 : Z,
      (0 <= z1 < z2)%Z -> (z2 <= 29)%Z ->
      Computed.ber z2 < Computed.ber z1) /\
  LinkQuality.ber 0 = 0.5 * exp (-1) /\
  0.18393 < LinkQuality.ber 0 < 0.18395 /\
  0.183 < Computed.ber 0 < 0.185 /\
  LinkQuality.ber 30 = 0.5 * exp (-1000) /\
  0 < LinkQuality.ber 30 < / 2 ^ 1075 /\
  Computed.ber 30 = 0 /\
  Computed.ber 29 = 0.
Proof.
  split; [now apply ber_decreasing |].
  split; [exact computed_ber_decreasing |].
  assert (H0 : LinkQuality.ber 0 = 0.5 * exp (-1)).
  { unfold LinkQuality.ber. now rewrite snr_lin_0. }
  assert (H30 : LinkQuality.ber 30 = 0.5 * exp (-1000)).
  { unfold LinkQuality.ber. now rewrite snr_lin_30. }
  pose proof exp_m1_bounds. pose proof exp_m1000_tiny.
  pose proof computed_ber_0.
  rewrite H0, H30.
  rewrite (computed_ber_underflow 30), (computed_ber_underflow 29) by lia.
  repeat split; lra.
Qed.

Lemma ber_exact_decreasing_computed_underflow_witness :
  LinkQuality.ber 30 < LinkQuality.ber 0 /\
  Computed.ber 29 < Computed.ber 28 /\ Computed.ber 30 = 0.
Proof.
  assert (Hlt : 0 < 30) by lra.
  pose proof (ber_exact_decreasing_computed_underflow 0 30 Hlt)
    as (Hexact & Hcomp & H).
  split; [exact Hexact |]. split; [apply Hcomp; lia | apply H].
Defined.

(** C1 as stated fails: the BER the script computes is 0 both at 29 dB and
    at 30 dB, so it does not decrease strictly between them. *)
Lemma computed_ber_not_strictly_decreasing :
  ~ Computed.ber 30 < Computed.ber 29.
Proof. rewrite !computed_ber_underflow by lia. lra. Qed.

(** ** Coverage *)

Lemma max_distance_ok (f : R) (P : Z) (n : R) :
  0 < f -> 0 < n -> Coverage.max_distance f P n = Ok (range_formula f P n).
Proof.
  intros Hf Hn. unfold Coverage.max_distance, Coverage.wavelength.
  rewrite !truediv_ok by lra.
  unfold range_formula, Coverage.c, Coverage.rx_thresh.
  now rewrite minus_IZR.
Qed.






(** ** Spectral efficiency *)

Lemma bits_per_sym_choices (scheme : string) (b : Z) :
  Spectral.bits_per_sym scheme = Ok b ->
  scheme ∈ Spectral.modulation_choices /\ (b = 2 \/ b = 4 \/ b = 6)%Z.
Proof.
  unfold Spectral.bits_per_sym, Spectral.bits_table, Spectral.modulation_choices.
  destruct (decide (scheme = "QPSK (2 bits/sym)")) as [-> | H2].
  { vm_compute. intros [= <-]. split; [left | tauto]. }
  destruct (decide (scheme = "16-QAM (4 bits/sym)")) as [-> | H4].
  { vm_compute. intros [= <-]. split; [right; left | tauto]. }
  destruct (decide (scheme = "64-QAM (6 bits/sym)")) as [-> | H6].
  { vm_compute. intros [= <-]. split; [right; right; left | tauto]. }
  rewrite !lookup_insert_ne, lookup_singleton_ne by congruence. discriminate.
Qed.

Lemma bits_per_sym_ok (scheme : string) :
  scheme ∈ Spectral.modulation_choices ->
  exists b : Z, Spectral.bits_per_sym scheme = Ok b.
Proof.
  unfold Spectral.modulation_choices. rewrite !elem_of_cons, elem_of_nil.
  intros [-> | [-> | [-> | []]]]; eexists; vm_compute; reflexivity.
Qed.

Lemma data_rate_bandwidth (bw1 bw2 : R) (b : Z) :
  (0 < b)%Z -> bw1 < bw2 ->
  Spectral.data_rate bw1 b < Spectral.data_rate bw2 b.
Proof. intros Hb H. unfold Spectral.data_rate. apply IZR_lt in Hb. nra. Qed.

Lemma data_rate_bits (bw : R) (b1 b2 : Z) :
  0 < bw -> (b1 < b2)%Z ->
  Spectral.data_rate bw b1 < Spectral.data_rate bw b2.
Proof. intros Hbw H. unfold Spectral.data_rate. apply IZR_lt in H. nra. Qed.

(** C3: the bits per symbol come from the table QPSK = 2, 16-QAM = 4,
    64-QAM = 6; the data rate is the bandwidth in Hz (the slider value in
    MHz times 1e6) times the bits per symbol divided by 7; it is strictly
    increasing in the bandwidth and in the bits per symbol; for 10 MHz and
    16-QAM it is [10e6 * 4 / 7], about 5.714 Mbps. *)
Theorem data_rate_formula_monotone
  (scheme : string) (b1 b2 : Z) (bw1 bw2 : R)
  (Hs : Spectral.bits_per_sym scheme = Ok b1)
  (Hbw : 0 < bw1 < bw2) (Hb : (b1 < b2)%Z) :
  Spectral.bits_per_sym "QPSK (2 bits/sym)" = Ok 2%Z /\
  Spectral.bits_per_sym "16-QAM (4 bits/sym)" = Ok 4%Z /\
  Spectral.bits_per_sym "64-QAM (6 bits/sym)" = Ok 6%Z /\
  (b1 = 2 \/ b1 = 4 \/ b1 = 6)%Z /\
  Spectral.data_rate bw1 b1 = (bw1 * 1e6) * IZR b1 / 7 /\
  Spectral.data_rate bw1 b1 < Spectral.data_rate bw2 b1 /\
  Spectral.data_rate bw1 b1 < Spectral.data_rate bw1 b2 /\
  Spectral.data_rate 10 4 = 10e6 * 4 / 7 /\
  5.714e6 < Spectral.data_rate 10 4 < 5.715e6.
Proof.
  destruct (bits_per_sym_choices _ _ Hs) as [_ Hb1].
  repeat split.
  - exact Hb1.
  - apply data_rate_bandwidth; [lia | lra].
  - apply data_rate_bits; [lra | exact Hb].
  - unfold Spectral.data_rate. lra.
  - unfold Spectral.data_rate. lra.
  - unfold Spectral.data_rate. lra.
Qed.

Lemma data_rate_formula_monotone_witness :
  Spectral.data_rate 5 2 < Spectral.data_rate 10 2 /\
  Spectral.data_rate 5 2 < Spectral.data_rate 5 4.
Proof.
  assert (Hs : Spectral.bits_per_sym "QPSK (2 bits/sym)" = Ok 2%Z)
    by reflexivity.
  assert (Hbw : 0 < 5 < 10) by lra.
  assert (Hb : (2 < 4)%Z) by lia.
  pose proof (data_rate_formula_monotone _ 2 4 5 10 Hs Hbw Hb) as H.
  split; apply H.
Defined.

(** ** QoS class analyzer *)

Lemma dom_ratings (a b c d e : string) :
  dom ({[ "Delay" := a; "Jitter" := b; "Throughput" := c;
          "BER" := d; "PLR" := e ]} : gmap string string) = QoS.rating_keys.
Proof.
  rewrite !dom_insert_L, dom_singleton_L. unfold QoS.rating_keys. set_solver.
Qed.

Lemma size_rating_keys : size QoS.rating_keys = 5%nat.
Proof.
  unfold QoS.rating_keys.
  rewrite !size_union, !size_singleton; [reflexivity | ..];
    rewrite ?disjoint_union_l, !disjoint_singleton_l, !elem_of_singleton;
    intuition discriminate.
Qed.

Lemma size_ratings (a b c d e : string) :
  size ({[ "Delay" := a; "Jitter" := b; "Throughput" := c;
           "BER" := d; "PLR" := e ]} : gmap string string) = 5%nat.
Proof. rewrite <- size_dom, dom_ratings. apply size_rating_keys. Qed.

Lemma class_choices_cases (q : string) :
  q ∈ QoS.class_choices ->
  q = "UGS" \/ q = "rtPS" \/ q = "nrtPS" \/ q = "BE".
Proof.
  unfold QoS.class_choices. rewrite !elem_of_cons, elem_of_nil. tauto.
Qed.

Lemma analyze_else (q : string) :
  q <> "UGS" -> q <> "rtPS" -> q <> "nrtPS" ->
  QoS.analyze q = QoS.analyze "BE".
Proof.
  intros H1 H2 H3. unfold QoS.analyze.
  apply String.eqb_neq in H1, H2, H3. now rewrite H1, H2, H3.
Qed.

(** C6: the class selector offers exactly the four identifiers UGS, rtPS,
    nrtPS and BE, without repetition; for each of them the lookup returns
    a non-empty description and a ratings dict whose keys are exactly
    Delay, Jitter, Throughput, BER and PLR. *)
Theorem qos_lookup_four_classes (q : string) (Hq : q ∈ QoS.class_choices) :
  QoS.class_choices = ["UGS"; "rtPS"; "nrtPS"; "BE"] /\
  NoDup QoS.class_choices /\
  QoS.description (QoS.analyze q) <> "" /\
  dom (QoS.metrics (QoS.analyze q)) = QoS.rating_keys /\
  size (QoS.metrics (QoS.analyze q)) = 5%nat /\
  size QoS.rating_keys = 5%nat.
Proof.
  split; [reflexivity |].
  split.
  { unfold QoS.class_choices.
    repeat (apply NoDup_cons; split;
            [rewrite ?elem_of_cons, elem_of_nil; intuition discriminate |]).
    apply NoDup_nil_2. }
  apply class_choices_cases in Hq.
  destruct Hq as [-> | [-> | [-> | ->]]];
    (split; [discriminate |]);
    (split; [apply dom_ratings |]);
    (split; [apply size_ratings | apply size_rating_keys]).
Qed.

Lemma qos_lookup_four_classes_witness :
  QoS.description (QoS.analyze "rtPS") <> "" /\
  dom (QoS.metrics (QoS.analyze "rtPS")) = QoS.rating_keys.
Proof.
  assert (Hq : "rtPS" ∈ QoS.class_choices).
  { unfold QoS.class_choices. apply elem_of_cons. right.
    apply elem_of_cons. left. reflexivity. }
  pose proof (qos_lookup_four_classes "rtPS" Hq) as H.
  split; apply H.
Defined.

(** C10: the last branch of the chain is a catch-all: every identifier
    other than UGS, rtPS and nrtPS, whatever string it is, gets the Best
    Effort description and the Best Effort ratings with their five keys;
    the lookup has no failing case. *)
Theorem qos_lookup_catch_all (q : string)
  (Hugs : q <> "UGS") (Hrtps : q <> "rtPS") (Hnrtps : q <> "nrtPS") :
  QoS.analyze q = QoS.analyze "BE" /\
  QoS.description (QoS.analyze q) =
    "✅ Best Effort: No guarantee (e.g. web browsing)" /\
  QoS.metrics (QoS.analyze q) =
    {[ "Delay" := "Variable"; "Jitter" := "Variable";
       "Throughput" := "Low-Medium"; "BER" := "High"; "PLR" := "High" ]} /\
  dom (QoS.metrics (QoS.analyze q)) = QoS.rating_keys.
Proof.
  rewrite (analyze_else q Hugs Hrtps Hnrtps).
  split; [reflexivity |]. split; [reflexivity |].
  split; [reflexivity | apply dom_ratings].
Qed.

Lemma qos_lookup_catch_all_witness :
  QoS.analyze "VoIP" = QoS.analyze "BE" /\
  QoS.analyze "" = QoS.analyze "BE".
Proof.
  split.
  - apply (qos_lookup_catch_all "VoIP"); discriminate.
  - apply (qos_lookup_catch_all ""); discriminate.
Defined.

(** ** OFDM subcarrier allocation *)

Lemma power_blocks : OFDM.power = concat (repeat [1; 0; 0; 0] 16).
Proof. reflexivity. Qed.

Lemma filter_active_block (l : list R) :
  filter (fun x : R => x = 1) ([1; 0; 0; 0] ++ l)%list
  = 1 :: filter (fun x : R => x = 1) l.
Proof.
  cbn [List.app].
  rewrite filter_cons_True by reflexivity.
  rewrite !filter_cons_False by lra. reflexivity.
Qed.

Lemma active_count_blocks (n : nat) :
  OFDM.active_count (concat (repeat [1; 0; 0; 0] n)) = n.
Proof.
  unfold OFDM.active_count. induction n as [| n IH]; [reflexivity |].
  cbn [repeat concat]. rewrite filter_active_block. cbn [length].
  now rewrite IH.
Qed.

(** C7: the allocation array has length 64, its positions are labelled by
    the subcarrier indices -32, ..., 31, the entry at every 4th position
    (0, 4, 8, ...) is 1 and every other entry is 0, and exactly 16 of the
    64 entries are active. *)
Theorem subcarrier_allocation :
  length OFDM.power = 64%nat /\
  length OFDM.subcarriers = 64%nat /\
  OFDM.subcarriers = map (fun i : nat => (Z.of_nat i - 32)%Z) (seq 0 64) /\
  head OFDM.subcarriers = Some (-32)%Z /\
  last OFDM.subcarriers = Some 31%Z /\
  OFDM.power =
    map (fun i : nat => if (i mod 4 =? 0)%nat then 1 else 0) (seq 0 64) /\
  OFDM.active_count OFDM.power = 16%nat.
Proof.
  repeat split; try reflexivity.
  rewrite power_blocks. apply active_count_blocks.
Qed.

(** ** Scheduling *)

Lemma cdf_values :
  cdf = [threshold_ugs; threshold_rtps; threshold_nrtps; 1].
Proof.
  unfold cdf, Scheduling.cumsum, Scheduling.p.
  rewrite round_03, round_02. cbn [Scheduling.cumsum_from].
  rewrite round_sum_2, round_sum_3, round_sum_4.
  unfold Scheduling.normalise. cbn [List.last map].
  now rewrite round_threshold_ugs, round_threshold_rtps,
    round_threshold_nrtps, round_1.
Qed.

Lemma searchsorted_cdf (u : R) :
  0 <= u < 1 ->
  Scheduling.searchsorted_right cdf u =
    if Rlt_dec u threshold_ugs then 0%nat
    else if Rlt_dec u threshold_rtps then 1%nat
    else if Rlt_dec u threshold_nrtps then 2%nat else 3%nat.
Proof.
  intros Hu. rewrite cdf_values. cbn [Scheduling.searchsorted_right].
  unfold threshold_ugs, threshold_rtps, threshold_nrtps.
  repeat (destruct (Rle_dec _ _)); repeat (destruct (Rlt_dec _ _));
    try reflexivity; exfalso; lra.
Qed.

(** The class a raw sample selects. *)
Lemma drawn_class (u : R) :
  0 <= u < 1 ->
  exists c : string,
    Scheduling.traffic_classes !! Scheduling.searchsorted_right cdf u = Some c /\
    c ∈ Scheduling.traffic_classes /\
    (c = "UGS" <-> 0 <= u < threshold_ugs) /\
    (c = "rtPS" <-> threshold_ugs <= u < threshold_rtps) /\
    (c = "nrtPS" <-> threshold_rtps <= u < threshold_nrtps) /\
    (c = "BE" <-> threshold_nrtps <= u < 1).
Proof.
  intros Hu. rewrite (searchsorted_cdf u Hu).
  unfold Scheduling.traffic_classes.
  unfold threshold_ugs, threshold_rtps, threshold_nrtps.
  repeat (destruct (Rlt_dec _ _)); eexists; (split; [reflexivity |]);
    (split; [rewrite !elem_of_cons; auto 6 |]);
    repeat split; first [discriminate | lra | intros; exfalso; lra | idtac].
Qed.

Lemma take_spec (a : list string) (idx : list nat) (xs : list string) :
  Forall2 (fun i x => a !! i = Some x) idx xs ->
  Scheduling.take a idx = Ok xs.
Proof.
  induction 1 as [| i x idx xs Hi _ IH]; [reflexivity |].
  cbn [Scheduling.take]. now rewrite Hi, IH.
Qed.

Lemma drawn_classes (us : list R) :
  Forall (fun u => 0 <= u < 1) us ->
  exists cs : list string,
    Forall2 (fun i x => Scheduling.traffic_classes !! i = Some x)
            (map (Scheduling.searchsorted_right cdf) us) cs.
Proof.
  induction 1 as [| u us Hu _ [cs IH]].
  - exists []. constructor.
  - destruct (drawn_class u Hu) as (c & Hc & _).
    exists (c :: cs). cbn [map]. now constructor.
Qed.

Lemma samples_valid (g : rng) (n : nat) :
  valid_tape g -> Forall (fun u => 0 <= u < 1) (map (sample_at g) (seq 0 n)).
Proof.
  intros Hg. apply Forall_forall. intros u Hu.
  apply list_elem_of_fmap in Hu as (i & -> & _). apply Hg.
Qed.

Lemma schedule_spec (g : rng) :
  valid_tape g ->
  exists sch : list string,
    Scheduling.schedule g = Ok (sch, advance g 20) /\
    Forall2 (fun i x => Scheduling.traffic_classes !! i = Some x)
            (map (Scheduling.searchsorted_right cdf)
                 (map (sample_at g) (seq 0 20))) sch.
Proof.
  intros Hg.
  destruct (drawn_classes _ (samples_valid g 20 Hg)) as [sch Hsch].
  exists sch. split; [| exact Hsch].
  unfold Scheduling.schedule, Scheduling.choice, Scheduling.slots, bind.
  rewrite random_samples_spec. unfold lift.
  fold cdf. now rewrite (take_spec _ _ _ Hsch).
Qed.

(** C8: whatever raw samples the generator delivers, the schedule is
    computed without error, consumes 20 raw samples, has length 20 and
    holds only the four classes.  Slot [i] depends on raw sample [i] alone
    (the draws are independent, repeats are not excluded), and it is UGS,
    rtPS, nrtPS or BE exactly when that sample falls in [0, t1), [t1, t2),
    [t2, t3) or [t3, 1), where t1, t2, t3 are the binary64 running sums of
    the probabilities: the entries of the distribution the code searches,
    each less than 2^-53 away from 0.3, 0.6 and 0.8.  Under a uniform
    sample the classes so have the probabilities 0.3, 0.3, 0.2 and 0.2 up
    to that rounding. *)
Theorem schedule_length_and_classes (g : rng) (i : nat)
  (Hg : valid_tape g) (Hi : (i < 20)%nat) :
  exists (sch : list string) (c : string),
    Scheduling.schedule g = Ok (sch, advance g 20) /\
    length sch = 20%nat /\
    Forall (fun x => x ∈ Scheduling.traffic_classes) sch /\
    Scheduling.traffic_classes = ["UGS"; "rtPS"; "nrtPS"; "BE"] /\
    sch !! i = Some c /\
    cdf = [threshold_ugs; threshold_rtps; threshold_nrtps; 1] /\
    Rabs (threshold_ugs - 0.3) < / 2 ^ 53 /\
    Rabs (threshold_rtps - 0.6) < / 2 ^ 53 /\
    Rabs (threshold_nrtps - 0.8) < / 2 ^ 53 /\
    (c = "UGS" <-> 0 <= sample_at g i < threshold_ugs) /\
    (c = "rtPS" <-> threshold_ugs <= sample_at g i < threshold_rtps) /\
    (c = "nrtPS" <-> threshold_rtps <= sample_at g i < threshold_nrtps) /\
    (c = "BE" <-> threshold_nrtps <= sample_at g i < 1).
Proof.
  destruct (schedule_spec g Hg) as (sch & Hrun & Hsch).
  assert (Hlen : length sch = 20%nat).
  { apply Forall2_length in Hsch. now rewrite !length_map, length_seq in Hsch. }
  assert (Hall : Forall (fun x => x ∈ Scheduling.traffic_classes) sch).
  { apply Forall_forall. intros x Hx.
    apply list_elem_of_lookup in Hx as [j Hj].
    destruct (Forall2_lookup_r _ _ _ _ _ Hsch Hj) as (k & _ & Hk).
    apply list_elem_of_lookup. now exists k. }
  destruct (lookup_lt_is_Some_2 sch i) as [c Hc]; [lia |].
  exists sch, c. repeat (split; [first [assumption | reflexivity] |]).
  split; [exact cdf_values |].
  repeat (split;
    [unfold threshold_ugs, threshold_rtps, threshold_nrtps;
     apply Rabs_def1; lra |]).
  destruct (Forall2_lookup_r _ _ _ _ _ Hsch Hc) as (k & Hk & Hlook).
  rewrite !list_lookup_fmap, lookup_seq_lt in Hk by exact Hi.
  change (Some (Scheduling.searchsorted_right cdf (sample_at g i)) = Some k)
    in Hk.
  assert (Hk' : Scheduling.searchsorted_right cdf (sample_at g i) = k)
    by congruence.
  destruct (drawn_class (sample_at g i) (Hg _)) as (c' & Hc' & _ & Hiff).
  rewrite Hk', Hlook in Hc'. injection Hc' as <-. exact Hiff.
Qed.

Lemma schedule_length_and_classes_witness :
  let g := mkRng (fun _ : nat => threshold_rtps) 0 in
  exists sch : list string,
    Scheduling.schedule g = Ok (sch, advance g 20) /\
    length sch = 20%nat /\ sch !! 7%nat = Some "nrtPS".
Proof.
  intros g.
  assert (Hg : valid_tape g).
  { intros i. unfold g, threshold_rtps. simpl. lra. }
  assert (Hi : (7 < 20)%nat) by lia.
  destruct (schedule_length_and_classes g 7 Hg Hi)
    as (sch & c & Hrun & Hlen & _ & _ & Hc & _ & _ & _ & _ & _ & _ & Hn & _).
  exists sch. split; [exact Hrun |]. split; [exact Hlen |].
  rewrite Hc. f_equal. apply Hn.
  unfold g, sample_at, threshold_rtps, threshold_nrtps. simpl. lra.
Defined.

(** ** Delay and jitter *)

Lemma delay_unfold (s : Z) (g : rng) :
  LinkQuality.delay s g =
    match truediv_int (uniform_at 10 50 g 0) (s + 1) with
    | Ok d => Ok (d, advance g 1)
    | Raise e => Raise e
    end.
Proof. unfold LinkQuality.delay, bind. now rewrite uniform_spec. Qed.

Lemma jitter_unfold (s : Z) (g : rng) :
  LinkQuality.jitter s g =
    match truediv_int (uniform_at 1 10 g 0) (s + 1) with
    | Ok d => Ok (d, advance g 1)
    | Raise e => Raise e
    end.
Proof. unfold LinkQuality.jitter, bind. now rewrite uniform_spec. Qed.

Lemma scaled_draw_raises (x : R) (s : Z) (g : rng) (e : exn) :
  match truediv_int x (s + 1) with
  | Ok d => Ok (d, g)
  | Raise e' => Raise e'
  end = Raise e <-> s = (-1)%Z /\ e = ZeroDivisionError.
Proof.
  destruct (truediv_int x (s + 1)) as [d | e'] eqn:Hdiv.
  - split; [discriminate |]. intros [-> _].
    unfold truediv_int in Hdiv. simpl in Hdiv. discriminate.
  - apply truediv_int_raise in Hdiv as [Hs ->].
    split; [intros [= <-]; split; [lia | reflexivity] | now intros [_ ->]].
Qed.

(** C9: in the delay and jitter formulas the divisor is [SNR + 1]; either
    formula raises only the division by zero, and only at SNR = -1.  The
    SNR control ranges over 0 .. 30, where the divisor is at least 1 and
    both formulas return their scaled draw. *)
Theorem delay_jitter_division (snr_db : Z) (g : rng)
  (Hs : (0 <= snr_db <= 30)%Z) :
  (1 <= snr_db + 1)%Z /\
  1 <= IZR (snr_db + 1) /\
  snr_db <> (-1)%Z /\
  LinkQuality.delay snr_db g =
    Ok (uniform_at 10 50 g 0 / IZR (snr_db + 1), advance g 1) /\
  LinkQuality.jitter snr_db g =
    Ok (uniform_at 1 10 g 0 / IZR (snr_db + 1), advance g 1) /\
  (forall (s : Z) (h : rng) (e : exn),
      LinkQuality.delay s h = Raise e <->
      s = (-1)%Z /\ e = ZeroDivisionError) /\
  (forall (s : Z) (h : rng) (e : exn),
      LinkQuality.jitter s h = Raise e <->
      s = (-1)%Z /\ e = ZeroDivisionError).
Proof.
  split; [lia |].
  split; [apply IZR_le; lia |].
  split; [lia |].
  split; [rewrite delay_unfold, truediv_int_ok by lia; reflexivity |].
  split; [rewrite jitter_unfold, truediv_int_ok by lia; reflexivity |].
  split; intros s h e.
  - rewrite delay_unfold. apply scaled_draw_raises.
  - rewrite jitter_unfold. apply scaled_draw_raises.
Qed.

Lemma delay_jitter_division_witness :
  LinkQuality.delay 0 zero_rng = Ok (uniform_at 10 50 zero_rng 0 / 1,
                                     advance zero_rng 1) /\
  LinkQuality.jitter 30 zero_rng = Ok (uniform_at 1 10 zero_rng 0 / 31,
                                       advance zero_rng 1).
Proof.
  assert (H0 : (0 <= 0 <= 30)%Z) by lia.
  assert (H30 : (0 <= 30 <= 30)%Z) by lia.
  split.
  - apply (delay_jitter_division 0 zero_rng H0).
  - apply (delay_jitter_division 30 zero_rng H30).
Defined.

(** ** The monitoring loop *)

Lemma step_spec (snr_db : Z) (data_rate : R) (t : Z) (s : Monitor.series)
      (g : rng) :
  Monitor.step snr_db data_rate t s g =
    Ok (Monitor.mkSeries
          (Monitor.x_vals s ++ [t])
          (Monitor.ber_vals s ++
             [LinkQuality.ber (IZR snr_db + uniform_at (-2) 2 g 0)])
          (Monitor.thr_vals s ++
             [LinkQuality.throughput data_rate
                (LinkQuality.ber (IZR snr_db + uniform_at (-2) 2 g 0))
              / 1e6]),
        advance g 1).
Proof. unfold Monitor.step, bind. now rewrite uniform_spec. Qed.

Lemma for_each_step_spec (snr_db : Z) (data_rate : R) (n : nat) :
  forall (k : nat) (s : Monitor.series) (g : rng),
    Monitor.for_each (map Z.of_nat (seq k n)) (Monitor.step snr_db data_rate)
                     s g =
      Ok (Monitor.mkSeries
            (Monitor.x_vals s ++ map Z.of_nat (seq k n))
            (Monitor.ber_vals s ++
               map (fun i => LinkQuality.ber
                               (IZR snr_db + uniform_at (-2) 2 g i))
                   (seq 0 n))
            (Monitor.thr_vals s ++
               map (fun i => LinkQuality.throughput data_rate
                               (LinkQuality.ber
                                  (IZR snr_db + uniform_at (-2) 2 g i))
                             / 1e6)
                   (seq 0 n)),
          advance g n).
Proof.
  induction n as [| n IH]; intros k s g.
  - cbn [seq map Monitor.for_each]. unfold ret.
    rewrite !app_nil_r, advance_0. now destruct s.
  - cbn [seq map Monitor.for_each]. unfold bind.
    rewrite step_spec, IH. cbn [Monitor.x_vals Monitor.ber_vals Monitor.thr_vals].
    rewrite advance_advance, <- !app_assoc. cbn [List.app].
    do 2 f_equal. f_equal; do 2 f_equal;
      rewrite <- seq_shift, map_map; apply map_ext; intros i;
      unfold uniform_at; now rewrite sample_at_advance.
Qed.

Lemma live_simulation_spec (snr_db : Z) (data_rate : R) (g : rng) :
  Monitor.live_simulation snr_db data_rate g =
    Ok (Monitor.mkSeries
          (map Z.of_nat (seq 0 30))
          (map (fun i => LinkQuality.ber (IZR snr_db + uniform_at (-2) 2 g i))
               (seq 0 30))
          (map (fun i => LinkQuality.throughput data_rate
                           (LinkQuality.ber
                              (IZR snr_db + uniform_at (-2) 2 g i))
                         / 1e6)
               (seq 0 30)),
        advance g 30).
Proof.
  unfold Monitor.live_simulation, Monitor.range.
  now rewrite for_each_step_spec.
Qed.

Lemma lookup_map_seq {A} (f : nat -> A) (n t : nat) :
  (t < n)%nat -> map f (seq 0 n) !! t = Some (f t).
Proof.
  intros Ht. change (map f (seq 0 n)) with (f <$> seq 0 n).
  now rewrite list_lookup_fmap, lookup_seq_lt.
Qed.

Lemma live_simulation_appended (snr_db : Z) (data_rate : R) (g : rng) :
  valid_tape g ->
  exists s : Monitor.series,
    Monitor.live_simulation snr_db data_rate g = Ok (s, advance g 30) /\
    appended_triples (fun thr => thr / 1e6) snr_db data_rate g s.
Proof.
  intros Hg. eexists. split; [apply live_simulation_spec |].
  unfold appended_triples.
  cbn [Monitor.x_vals Monitor.ber_vals Monitor.thr_vals].
  rewrite !length_map, !length_seq. repeat split; try reflexivity.
  - pose proof (uniform_at_range (-2) 2 g t Hg). lra.
  - pose proof (uniform_at_range (-2) 2 g t Hg). lra.
  - now apply (lookup_map_seq Z.of_nat).
  - now rewrite lookup_map_seq.
  - now rewrite lookup_map_seq.
Qed.

(** C5 as amended: every run of the loop succeeds, consumes 30 raw samples
    and leaves exactly 30 triples, with times 0 .. 29 in increasing order;
    at step [t] the configured SNR is perturbed by a draw from
    [uniform(-2, 2)], which lies in [-2, 2); the BER entry is the
    link-quality BER at the perturbed SNR and the throughput entry is the
    link-quality throughput at that BER divided by 1e6 (Mbps). *)
Theorem live_simulation_series (snr_db : Z) (data_rate : R) (g : rng)
  (Hg : valid_tape g) :
  exists s : Monitor.series,
    Monitor.live_simulation snr_db data_rate g = Ok (s, advance g 30) /\
    length (Monitor.x_vals s) = 30%nat /\
    appended_triples (fun thr => thr / 1e6) snr_db data_rate g s /\
    forall t : nat, -2 <= uniform_at (-2) 2 g t < 2.
Proof.
  destruct (live_simulation_appended snr_db data_rate g Hg)
    as (s & Hrun & Hs).
  exists s. split; [exact Hrun |].
  split; [destruct Hs as (-> & _); now rewrite length_map, length_seq |].
  split; [exact Hs |].
  intros t. apply uniform_at_range; [exact Hg | lra].
Qed.

Lemma live_simulation_series_witness :
  exists s : Monitor.series,
    Monitor.live_simulation 10 (Spectral.data_rate 10 2) zero_rng
      = Ok (s, advance zero_rng 30) /\
    Monitor.x_vals s !! 29%nat = Some 29%Z.
Proof.
  destruct (live_simulation_series 10 (Spectral.data_rate 10 2) zero_rng
              valid_tape_zero) as (s & Hrun & _ & Hs & _).
  exists s. split; [exact Hrun |].
  destruct Hs as (_ & _ & _ & Hs). apply (Hs 29%nat). lia.
Defined.

(** C5 as stated fails: with the default SNR of 10 dB, the data rate of
    10 MHz QPSK and raw samples all 0, the throughput entries of the run
    are not the values of the throughput formula. *)
Lemma live_simulation_throughput_not_raw :
  ~ exists (s : Monitor.series) (g' : rng),
      Monitor.live_simulation 10 (Spectral.data_rate 10 2) zero_rng
        = Ok (s, g') /\
      appended_triples (fun thr => thr) 10 (Spectral.data_rate 10 2)
                       zero_rng s.
Proof.
  intros (s & g' & Hrun & Hs).
  destruct (live_simulation_appended 10 (Spectral.data_rate 10 2) zero_rng
              valid_tape_zero) as (s0 & Hrun0 & Hs0).
  assert (Heq : s0 = s) by congruence. subst s0.
  destruct Hs as (_ & _ & _ & Hs). destruct Hs0 as (_ & _ & _ & Hs0).
  destruct (Hs 0%nat ltac:(lia)) as (_ & _ & _ & Hthr).
  destruct (Hs0 0%nat ltac:(lia)) as (_ & _ & _ & Hthr0).
  rewrite Hthr in Hthr0. injection Hthr0 as Hthr0.
  pose proof (ber_bounds (10 + uniform_at (-2) 2 zero_rng 0)) as Hb.
  revert Hthr0 Hb.
  generalize (LinkQuality.ber (10 + uniform_at (-2) 2 zero_rng 0)).
  intros b Hthr0 Hb.
  unfold LinkQuality.throughput, Spectral.data_rate in Hthr0.
  lra.
Qed.

(** ** The whole refresh *)

Lemma bind_ok {A B} (m : M A) (k : A -> M B) (g g1 : rng) (a : A) :
  m g = Ok (a, g1) -> bind m k g = k a g1.
Proof. intros H. unfold bind. now rewrite H. Qed.

Lemma lift_ok {A} (r : result A) (g : rng) (a : A) :
  r = Ok a -> lift r g = Ok (a, g).
Proof. now intros ->. Qed.

Lemma refresh_inv (k : controls) (g g' : rng) (o : outputs) :
  refresh k g = Ok (o, g') ->
  exists b : Z,
    Spectral.bits_per_sym (mod_scheme k) = Ok b /\
    out_data_rate o = Spectral.data_rate (bw k) b /\
    out_ber o = LinkQuality.ber (IZR (snr_db k)) /\
    out_throughput o = LinkQuality.throughput (out_data_rate o) (out_ber o).
Proof.
  intros H. unfold refresh in H.
  apply bind_ok_inv in H as (d & g1 & _ & H).
  apply bind_ok_inv in H as (b & g2 & Hb & H).
  apply lift_ok_inv in Hb as [Hb _].
  apply bind_ok_inv in H as (sch & g3 & _ & H).
  apply bind_ok_inv in H as (dl & g4 & _ & H).
  apply bind_ok_inv in H as (jt & g5 & _ & H).
  apply bind_ok_inv in H as (lv & g6 & _ & H).
  apply ret_ok_inv in H as [-> _].
  exists b. cbn. auto.
Qed.

(** With every control in its range and a generator that keeps its
    contract, the script runs to its end. *)
Lemma refresh_succeeds (k : controls) (g : rng) :
  valid_controls k -> valid_tape g ->
  exists (o : outputs) (g' : rng), refresh k g = Ok (o, g').
Proof.
  intros (Hf & HP & Hn & Hm & Hbw & Hq & Hs) Hg. unfold refresh.
  erewrite bind_ok; [| apply lift_ok, max_distance_ok; lra].
  destruct (bits_per_sym_ok _ Hm) as [b Hb].
  erewrite bind_ok; [| apply lift_ok, Hb].
  destruct (schedule_spec g Hg) as (sch & Hsch & _).
  erewrite bind_ok; [| exact Hsch].
  erewrite bind_ok;
    [| rewrite delay_unfold, truediv_int_ok by lia; reflexivity].
  erewrite bind_ok;
    [| rewrite jitter_unfold, truediv_int_ok by lia; reflexivity].
  destruct (run_button k).
  - erewrite bind_ok;
      [| erewrite bind_ok; [| apply live_simulation_spec]; reflexivity].
    eexists _, _. reflexivity.
  - erewrite bind_ok; [| reflexivity].
    eexists _, _. reflexivity.
Qed.

Lemma valid_default_controls : valid_controls default_controls.
Proof.
  unfold valid_controls, default_controls. cbn.
  repeat split; try lra; try lia.
  - unfold Spectral.modulation_choices. rewrite !elem_of_cons. auto.
  - unfold QoS.class_choices. rewrite !elem_of_cons. auto.
Qed.

Lemma throughput_near_data_rate (data_rate eps : R) :
  0 < eps ->
  exists delta : R,
    0 < delta /\
    forall b : R,
      Rabs b < delta ->
      Rabs (LinkQuality.throughput data_rate b - data_rate) < eps.
Proof.
  intros Heps. pose proof (Rabs_pos data_rate) as Hd.
  exists (eps / (Rabs data_rate + 1)). split.
  - apply Rdiv_lt_0_compat; lra.
  - intros b Hb. unfold LinkQuality.throughput.
    replace (data_rate * (1 - b) - data_rate) with (- (data_rate * b)) by ring.
    rewrite Rabs_Ropp, Rabs_mult.
    pose proof (Rabs_pos b) as Hb0.
    apply Rle_lt_trans with ((Rabs data_rate + 1) * Rabs b); [nra |].
    apply Rlt_le_trans with
      ((Rabs data_rate + 1) * (eps / (Rabs data_rate + 1))).
    + apply Rmult_lt_compat_l; lra.
    + right. field. lra.
Qed.

Lemma ber_vanishes (eps : R) :
  0 < eps ->
  exists snr0 : R, forall snr : R, snr0 < snr -> LinkQuality.ber snr < eps.
Proof.
  intros Heps.
  assert (Hln10 : 0 < ln 10) by (rewrite <- ln_1; apply ln_increasing; lra).
  exists (10 * (ln (/ eps) / ln 10)). intros snr Hsnr.
  assert (Hlin : / eps < LinkQuality.snr_lin snr).
  { apply snr_lin_increasing in Hsnr. revert Hsnr.
    unfold LinkQuality.snr_lin at 1, Rpower.
    replace (10 * (ln (/ eps) / ln 10) / 10 * ln 10) with (ln (/ eps))
      by (field; lra).
    rewrite exp_ln by (apply Rinv_0_lt_compat; exact Heps). tauto. }
  unfold LinkQuality.ber.
  pose proof (snr_lin_pos snr) as Hpos.
  set (x := LinkQuality.snr_lin snr) in *.
  assert (Hexp : exp (- x) < / x).
  { rewrite exp_Ropp. apply Rinv_lt_contravar.
    - apply Rmult_lt_0_compat; [exact Hpos | apply exp_pos].
    - pose proof (exp_ineq1 x). lra. }
  assert (Hinv : / x < eps).
  { rewrite <- (Rinv_inv eps). apply Rinv_lt_contravar; [| exact Hlin].
    apply Rmult_lt_0_compat; [apply Rinv_0_lt_compat; exact Heps | exact Hpos]. }
  pose proof (exp_pos (- x)). lra.
Qed.

(** C4: whenever the controls are in range, the refresh returns, and its
    throughput metric is its data rate times one minus its BER, the BER
    being the link-quality value [0.5 * e^(-10^(SNR/10))] at the SNR
    control; the throughput as a function of the BER tends to the data rate
    as the BER tends to 0, and so does the throughput along growing SNR. *)
Theorem throughput_formula_and_limit (k : controls) (g : rng) (eps : R)
  (Hk : valid_controls k) (Hg : valid_tape g) (Heps : 0 < eps) :
  exists (o : outputs) (g' : rng),
    refresh k g = Ok (o, g') /\
    out_ber o = 0.5 * exp (- Rpower 10 (IZR (snr_db k) / 10)) /\
    out_throughput o = out_data_rate o * (1 - out_ber o) /\
    (exists delta : R,
        0 < delta /\
        forall b : R,
          Rabs b < delta ->
          Rabs (LinkQuality.throughput (out_data_rate o) b - out_data_rate o)
          < eps) /\
    (exists snr0 : R,
        forall snr : R,
          snr0 < snr ->
          Rabs (LinkQuality.throughput (out_data_rate o) (LinkQuality.ber snr)
                - out_data_rate o) < eps).
Proof.
  destruct (refresh_succeeds k g Hk Hg) as (o & g' & Hrun).
  exists o, g'. split; [exact Hrun |].
  destruct (refresh_inv k g g' o Hrun) as (b & _ & _ & Hber & Hthr).
  split; [exact Hber |]. split; [exact Hthr |].
  destruct (throughput_near_data_rate (out_data_rate o) eps Heps)
    as (delta & Hdelta & Hnear).
  split; [exists delta; split; assumption |].
  destruct (ber_vanishes delta Hdelta) as [snr0 Hsnr0].
  exists snr0. intros snr Hsnr. apply Hnear.
  pose proof (ber_bounds snr) as [Hpos _].
  rewrite Rabs_pos_eq by lra. now apply Hsnr0.
Qed.

Lemma throughput_formula_and_limit_witness :
  exists (o : outputs) (g' : rng),
    refresh default_controls zero_rng = Ok (o, g') /\
    out_throughput o = out_data_rate o * (1 - out_ber o).
Proof.
  assert (Heps : 0 < 1) by lra.
  destruct (throughput_formula_and_limit default_controls zero_rng 1
              valid_default_controls valid_tape_zero Heps)
    as (o & g' & Hrun & _ & Hthr & _).
  exists o, g'. split; assumption.
Defined.

(** * Further properties of the script *)

(** ** Coverage: errors, frequency, range *)

Ltac eval_of_nat H :=
  repeat match type of H with
         | context [Z.of_nat ?k] =>
             let z := eval vm_compute in (Z.of_nat k) in
             change (Z.of_nat k) with z in H
         end.

Lemma PI_bounds : 3.1415 < PI < 3.1416.
Proof.
  pose proof (PI_2_3_7_ineq 2) as [Hlo Hhi].
  cbn [Nat.mul Nat.add sum_f_R0] in Hlo, Hhi.
  unfold tg_alt, PI_2_3_7_tg, Ratan_seq in Hlo, Hhi.
  cbn [Nat.mul Nat.add] in Hlo, Hhi.
  rewrite !INR_IZR_INZ in Hlo. rewrite !INR_IZR_INZ in Hhi.
  eval_of_nat Hlo. eval_of_nat Hhi.
  cbn [pow] in Hlo, Hhi.
  lra.
Qed.

Lemma max_distance_nonzero (f : R) (P : Z) (n : R) :
  f <> 0 -> n <> 0 -> Coverage.max_distance f P n = Ok (range_formula f P n).
Proof.
  intros Hf Hn. unfold Coverage.max_distance, Coverage.wavelength.
  rewrite !truediv_ok by (apply Rmult_integral_contrapositive; split; lra).
  unfold range_formula, Coverage.c, Coverage.rx_thresh.
  now rewrite minus_IZR.
Qed.

Lemma max_distance_failure (f : R) (P : Z) (n : R) (e : exn) :
  Coverage.max_distance f P n = Raise e <->
  (f = 0 \/ n = 0) /\ e = ZeroDivisionError.
Proof.
  unfold Coverage.max_distance, Coverage.wavelength, truediv.
  destruct (Req_dec_T (f * 1e9) 0) as [Hf | Hf].
  - split; [intros [= <-]; split; [left; lra | reflexivity] |].
    now intros [_ ->].
  - destruct (Req_dec_T (10 * n) 0) as [Hn | Hn].
    + split; [intros [= <-]; split; [right; lra | reflexivity] |].
      now intros [_ ->].
    + split; [discriminate |]. intros [[-> | ->] _]; exfalso; lra.
Qed.

(** X2: with a transmit power of its slider, and a frequency and a
    path-loss exponent that are 0 or a value of their sliders, the coverage
    computation fails only by a division by zero, and exactly when the
    frequency or the path-loss exponent is 0.  (Within these ranges the
    power [10 ** ...] stays far inside the binary64 range.) *)
Theorem max_distance_raises (f : R) (P : Z) (n : R) (e : exn)
  (Hf : f = 0 \/ 2.3 <= f <= 3.5) (HP : (10 <= P <= 40)%Z)
  (Hn : n = 0 \/ 2 <= n <= 5) :
  Coverage.max_distance f P n = Raise e <->
  (f = 0 \/ n = 0) /\ e = ZeroDivisionError.
Proof. apply max_distance_failure. Qed.

Lemma max_distance_raises_witness :
  Coverage.max_distance 2.5 20 0 = Raise ZeroDivisionError /\
  Coverage.max_distance 2.5 20 3.5 <> Raise ZeroDivisionError.
Proof.
  assert (Hf : 2.5 = 0 \/ 2.3 <= 2.5 <= 3.5) by (right; lra).
  assert (HP : (10 <= 20 <= 40)%Z) by lia.
  split.
  - assert (Hn : 0 = 0 \/ 2 <= 0 <= 5) by (left; reflexivity).
    apply (max_distance_raises 2.5 20 0 ZeroDivisionError Hf HP Hn).
    split; [right |]; reflexivity.
  - assert (Hn : 3.5 = 0 \/ 2 <= 3.5 <= 5) by (right; lra).
    intros H.
    apply (max_distance_raises 2.5 20 3.5 ZeroDivisionError Hf HP Hn) in H.
    destruct H as [[H | H] _]; lra.
Defined.

Lemma coverage_scale_pos (f : R) : 0 < f -> 0 < 3e8 / (f * 1e9) / (4 * PI).
Proof.
  intros Hf. pose proof PI_RGT_0. repeat apply Rdiv_lt_0_compat; lra.
Qed.

(** X3: within the slider ranges, a frequency that is higher by at least
    half a slider step (0.05 GHz) gives a strictly smaller, still positive
    coverage radius; radius times frequency does not depend on the
    frequency. *)
Theorem coverage_radius_frequency (f f' : R) (P : Z) (n : R)
  (Hf : 2.3 <= f) (Hff : f + 0.05 <= f') (Hf' : f' <= 3.5)
  (HP : (10 <= P <= 40)%Z) (Hn : 2 <= n <= 5) :
  exists d d' : R,
    Coverage.max_distance f P n = Ok d /\
    Coverage.max_distance f' P n = Ok d' /\
    0 < d' < d /\ d' * f' = d * f.
Proof.
  exists (range_formula f P n), (range_formula f' P n).
  rewrite !max_distance_nonzero by lra.
  repeat (split; [reflexivity |]).
  pose proof PI_RGT_0 as Hpi.
  unfold range_formula.
  set (g := Rpower 10 ((IZR P - -90) / (10 * n))).
  assert (Hg : 0 < g) by apply exp_pos.
  assert (Hs : 3e8 / (f' * 1e9) / (4 * PI) < 3e8 / (f * 1e9) / (4 * PI)).
  { unfold Rdiv. apply Rmult_lt_compat_r; [apply Rinv_0_lt_compat; lra |].
    apply Rmult_lt_compat_l; [lra |].
    apply Rinv_lt_contravar; nra. }
  pose proof (coverage_scale_pos f' ltac:(lra)) as Hpos.
  split; [split; nra |].
  field. repeat split; lra.
Qed.

Lemma coverage_radius_frequency_witness :
  exists d d' : R,
    Coverage.max_distance 2.3 20 3.5 = Ok d /\
    Coverage.max_distance 3.5 20 3.5 = Ok d' /\ 0 < d' < d.
Proof.
  assert (Hf : 2.3 <= 2.3) by lra.
  assert (Hff : 2.3 + 0.05 <= 3.5) by lra.
  assert (Hf' : 3.5 <= 3.5) by lra.
  assert (HP : (10 <= 20 <= 40)%Z) by lia.
  assert (Hn : 2 <= 3.5 <= 5) by lra.
  destruct (coverage_radius_frequency 2.3 3.5 20 3.5 Hf Hff Hf' HP Hn)
    as (d & d' & H1 & H2 & H3 & _).
  exists d, d'. repeat split; (assumption || apply H3).
Defined.

Lemma Rpower_10_6_5 : Rpower 10 (13 / 2) < 3162278.
Proof.
  assert (Hpow : Rpower 10 (13 / 2) ^ 2 = 10 ^ 13).
  { rewrite <- (Rpower_pow 2) by apply exp_pos.
    rewrite Rpower_mult.
    replace (13 / 2 * INR 2) with (INR 13)
      by (rewrite !INR_IZR_INZ; change (Z.of_nat 13) with 13%Z;
          change (Z.of_nat 2) with 2%Z; lra).
    apply Rpower_pow. lra. }
  destruct (Rlt_le_dec (Rpower 10 (13 / 2)) 3162278) as [H | H]; [exact H |].
  exfalso.
  assert (Hle : 3162278 ^ 2 <= Rpower 10 (13 / 2) ^ 2).
  { apply pow_incr. lra. }
  rewrite Hpow in Hle. lra.
Qed.

Lemma Rpower_10_2 : Rpower 10 2 = 100.
Proof.
  replace (Rpower 10 2) with (Rpower 10 (INR 2)) by (f_equal; simpl; lra).
  rewrite Rpower_pow by lra. simpl. lra.
Qed.

(** X4: over the whole range of the three sliders the coverage radius
    stays between 0.682 m and 32825 m. *)
Theorem coverage_radius_range (f : R) (P : Z) (n : R)
  (Hf : 2.3 <= f <= 3.5) (HP : (10 <= P <= 40)%Z) (Hn : 2 <= n <= 5) :
  exists d : R,
    Coverage.max_distance f P n = Ok d /\ 0.682 < d < 32825.
Proof.
  exists (range_formula f P n). rewrite max_distance_nonzero by lra.
  split; [reflexivity |].
  pose proof PI_bounds as Hpi.
  unfold range_formula.
  set (a := 3e8 / (f * 1e9) / (4 * PI)).
  set (x := (IZR P - -90) / (10 * n)).
  assert (Ha : 3e8 / (3.5 * 1e9) / (4 * 3.1416) < a < 3e8 / (2.3 * 1e9) / (4 * 3.1415)).
  { unfold a.
    replace (3e8 / (f * 1e9) / (4 * PI)) with (3 / 40 * (/ f * / PI))
      by (field; lra).
    assert (Hif : / 3.5 <= / f <= / 2.3)
      by (split; apply Rinv_le_contravar; lra).
    assert (Hip : / 3.1416 < / PI < / 3.1415)
      by (split; apply Rinv_lt_contravar; nra).
    assert (H35 : 0 < / 3.5) by lra. assert (H16 : 0 < / 3.1416) by lra.
    split.
    - apply Rlt_le_trans with (3 / 40 * (/ 3.5 * / PI)); [| nra].
      replace (3e8 / (3.5 * 1e9) / (4 * 3.1416))
        with (3 / 40 * (/ 3.5 * / 3.1416)) by lra. nra.
    - apply Rle_lt_trans with (3 / 40 * (/ 2.3 * / PI)); [nra |].
      replace (3e8 / (2.3 * 1e9) / (4 * 3.1415))
        with (3 / 40 * (/ 2.3 * / 3.1415)) by lra. nra. }
  assert (Hx : 2 <= x <= 13 / 2).
  { unfold x. destruct HP as [HP1 HP2]. apply IZR_le in HP1, HP2.
    assert (Hin : / 50 <= / (10 * n) <= / 20)
      by (split; apply Rinv_le_contravar; lra).
    unfold Rdiv. split; nra. }
  assert (Hp : 100 <= Rpower 10 x < 3162278).
  { split.
    - rewrite <- Rpower_10_2. apply Rle_Rpower; lra.
    - eapply Rle_lt_trans; [| apply Rpower_10_6_5]. apply Rle_Rpower; lra. }
  assert (Ha0 : 0 < a) by lra.
  split.
  - apply Rlt_le_trans with (a * 100); [lra | nra].
  - apply Rle_lt_trans with (a * 3162278); [nra | lra].
Qed.

Lemma coverage_radius_range_witness :
  exists d : R,
    Coverage.max_distance 2.5 20 3.5 = Ok d /\ 0.682 < d < 32825.
Proof.
  assert (Hf : 2.3 <= 2.5 <= 3.5) by lra.
  assert (HP : (10 <= 20 <= 40)%Z) by lia.
  assert (Hn : 2 <= 3.5 <= 5) by lra.
  exact (coverage_radius_range 2.5 20 3.5 Hf HP Hn).
Defined.

(** ** Data rate, throughput and packet loss *)

(** X5: for every label of the radio control and every bandwidth of the
    slider the data rate lies between 357142 and 17142858 bit/s. *)
Theorem data_rate_range (scheme : string) (bw : R)
  (Hs : scheme ∈ Spectral.modulation_choices) (Hbw : 1.25 <= bw <= 20) :
  exists b : Z,
    Spectral.bits_per_sym scheme = Ok b /\
    357142 < Spectral.data_rate bw b < 17142858.
Proof.
  destruct (bits_per_sym_ok scheme Hs) as [b Hb]. exists b.
  split; [exact Hb |].
  destruct (bits_per_sym_choices scheme b Hb) as [_ [-> | [-> | ->]]];
    unfold Spectral.data_rate; lra.
Qed.

Lemma data_rate_range_witness :
  exists b : Z,
    Spectral.bits_per_sym "64-QAM (6 bits/sym)" = Ok b /\
    357142 < Spectral.data_rate 20 b < 17142858.
Proof.
  assert (Hs : "64-QAM (6 bits/sym)" ∈ Spectral.modulation_choices).
  { unfold Spectral.modulation_choices. rewrite !elem_of_cons. auto. }
  assert (Hbw : 1.25 <= 20 <= 20) by lra.
  exact (data_rate_range "64-QAM (6 bits/sym)" 20 Hs Hbw).
Defined.

Lemma ber_slider (s1 s2 : Z) :
  (0 <= s1 <= s2)%Z ->
  0 < LinkQuality.ber (IZR s2) /\
  LinkQuality.ber (IZR s2) <= LinkQuality.ber (IZR s1) /\
  LinkQuality.ber (IZR s1) < 0.184.
Proof.
  intros Hs. split; [apply ber_bounds |].
  assert (Hmono : forall a b : R,
             a <= b -> LinkQuality.ber b <= LinkQuality.ber a).
  { intros a b [Hab | ->]; [left; now apply ber_decreasing | right; reflexivity]. }
  split; [apply Hmono, IZR_le; lia |].
  apply Rle_lt_trans with (LinkQuality.ber 0); [apply Hmono, IZR_le; lia |].
  unfold LinkQuality.ber. rewrite snr_lin_0.
  change (exp (- (1))) with (exp (-1)).
  pose proof exp_m1_bounds. lra.
Qed.

(** X6: for the values of the SNR slider and a data rate of at least
    1 bit/s, the throughput lies between 81.6 percent of the data rate and
    the data rate and does not decrease when the SNR grows; the
    packet-loss ratio lies between 0 and 18.4 percent and does not
    increase when the SNR grows. *)
Theorem link_metrics_monotone (data_rate : R) (s1 s2 : Z)
  (Hdr : 1 <= data_rate) (Hs : (0 <= s1 <= s2)%Z) (Hs2 : (s2 <= 30)%Z) :
  0.816 * data_rate
    < LinkQuality.throughput data_rate (LinkQuality.ber (IZR s1)) /\
  LinkQuality.throughput data_rate (LinkQuality.ber (IZR s1))
    <= LinkQuality.throughput data_rate (LinkQuality.ber (IZR s2)) /\
  LinkQuality.throughput data_rate (LinkQuality.ber (IZR s2)) <= data_rate /\
  0 <= LinkQuality.plr (LinkQuality.ber (IZR s2)) /\
  LinkQuality.plr (LinkQuality.ber (IZR s2))
    <= LinkQuality.plr (LinkQuality.ber (IZR s1)) /\
  LinkQuality.plr (LinkQuality.ber (IZR s1)) < 18.4.
Proof.
  pose proof (ber_slider s1 s2 Hs) as (H0 & Hle & Hhi).
  unfold LinkQuality.throughput, LinkQuality.plr. repeat split; nra.
Qed.

Lemma link_metrics_monotone_witness :
  LinkQuality.throughput 1e6 (LinkQuality.ber 0)
  <= LinkQuality.throughput 1e6 (LinkQuality.ber 30) /\
  LinkQuality.plr (LinkQuality.ber 0) < 18.4.
Proof.
  assert (Hdr : 1 <= 1e6) by lra.
  assert (Hs : (0 <= 0 <= 30)%Z) by lia.
  assert (Hs2 : (30 <= 30)%Z) by lia.
  pose proof (link_metrics_monotone 1e6 0 30 Hdr Hs Hs2) as H.
  split; apply H.
Defined.

(** ** The refresh as a whole *)

Lemma uniform_at_advance (low high : R) (g : rng) (n i : nat) :
  uniform_at low high (advance g n) i = uniform_at low high g (n + i).
Proof. unfold uniform_at. now rewrite sample_at_advance. Qed.

Lemma refresh_run (k : controls) (g : rng) (b : Z) :
  valid_tape g -> freq k <> 0 -> path_loss_exp k <> 0 ->
  Spectral.bits_per_sym (mod_scheme k) = Ok b -> snr_db k <> (-1)%Z ->
  exists sch : list string,
    Scheduling.schedule g = Ok (sch, advance g 20) /\
    refresh k g =
      Ok (mkOutputs
            (range_formula (freq k) (tx_power k) (path_loss_exp k))
            (Spectral.data_rate (bw k) b)
            (QoS.analyze (qos_class k))
            OFDM.subcarriers OFDM.power sch
            (LinkQuality.ber (IZR (snr_db k)))
            (LinkQuality.throughput (Spectral.data_rate (bw k) b)
               (LinkQuality.ber (IZR (snr_db k))))
            (uniform_at 10 50 g 20 / IZR (snr_db k + 1))
            (uniform_at 1 10 g 21 / IZR (snr_db k + 1))
            (LinkQuality.plr (LinkQuality.ber (IZR (snr_db k))))
            LinkQuality.ber_curve
            (if run_button k
             then Some (Monitor.mkSeries
                    (map Z.of_nat (seq 0 30))
                    (map (fun i => LinkQuality.ber
                            (IZR (snr_db k) + uniform_at (-2) 2 g (22 + i)))
                         (seq 0 30))
                    (map (fun i => LinkQuality.throughput
                            (Spectral.data_rate (bw k) b)
                            (LinkQuality.ber
                               (IZR (snr_db k)
                                + uniform_at (-2) 2 g (22 + i))) / 1e6)
                         (seq 0 30)))
             else None),
          advance g (if run_button k then 52 else 22)).
Proof.
  intros Hg Hf Hn Hb Hs.
  destruct (schedule_spec g Hg) as (sch & Hsch & _).
  exists sch. split; [exact Hsch |]. unfold refresh.
  erewrite bind_ok; [| apply lift_ok, max_distance_nonzero; assumption].
  erewrite bind_ok; [| apply lift_ok, Hb].
  erewrite bind_ok; [| exact Hsch].
  erewrite bind_ok;
    [| rewrite delay_unfold, truediv_int_ok by lia; reflexivity].
  erewrite bind_ok;
    [| rewrite jitter_unfold, truediv_int_ok by lia; reflexivity].
  rewrite !advance_advance, !uniform_at_advance.
  destruct (run_button k).
  - erewrite bind_ok;
      [| erewrite bind_ok; [| apply live_simulation_spec]; reflexivity].
    unfold ret. rewrite advance_advance. do 4 f_equal.
    f_equal; apply map_ext; intros i; now rewrite uniform_at_advance.
  - erewrite bind_ok; [| reflexivity]. reflexivity.
Qed.

Lemma valid_tape_advance (g : rng) (n : nat) :
  valid_tape g -> valid_tape (advance g n).
Proof. intros H i. apply H. Qed.

Lemma bind_raise {A B} (m : M A) (k : A -> M B) (g : rng) (e : exn) :
  m g = Raise e -> bind m k g = Raise e.
Proof. intros H. unfold bind. now rewrite H. Qed.

Lemma lift_raise {A} (r : result A) (g : rng) (e : exn) :
  r = Raise e -> lift r g = Raise e.
Proof. now intros ->. Qed.

Lemma bits_per_sym_failure (scheme : string) (e : exn) :
  Spectral.bits_per_sym scheme = Raise e <->
  (scheme ∉ Spectral.modulation_choices) /\ e = KeyError scheme.
Proof.
  split.
  - intros H. split.
    + intros Hin. destruct (bits_per_sym_ok scheme Hin) as [b Hb]. congruence.
    + unfold Spectral.bits_per_sym in H.
      destruct (Spectral.bits_table !! scheme); congruence.
  - intros [Hnot ->]. unfold Spectral.bits_per_sym.
    destruct (Spectral.bits_table !! scheme) as [b |] eqn:Hb; [| reflexivity].
    exfalso. apply Hnot.
    apply (bits_per_sym_choices scheme b).
    unfold Spectral.bits_per_sym. now rewrite Hb.
Qed.

(** X1: subscripting the modulation table raises [KeyError], carrying the
    key, exactly for the strings that are not one of the three labels of
    the radio control; it raises nothing else. *)
Theorem bits_per_sym_raises (scheme : string) (e : exn) :
  Spectral.bits_per_sym scheme = Raise e <->
  (scheme ∉ Spectral.modulation_choices) /\ e = KeyError scheme.
Proof. apply bits_per_sym_failure. Qed.

Lemma refresh_cases (k : controls) (g : rng) :
  valid_tape g ->
  ((freq k = 0 \/ path_loss_exp k = 0) /\
   refresh k g = Raise ZeroDivisionError)
  \/ (freq k <> 0 /\ path_loss_exp k <> 0 /\
      (mod_scheme k ∉ Spectral.modulation_choices) /\
      refresh k g = Raise (KeyError (mod_scheme k)))
  \/ (freq k <> 0 /\ path_loss_exp k <> 0 /\
      mod_scheme k ∈ Spectral.modulation_choices /\ snr_db k = (-1)%Z /\
      refresh k g = Raise ZeroDivisionError)
  \/ (freq k <> 0 /\ path_loss_exp k <> 0 /\
      mod_scheme k ∈ Spectral.modulation_choices /\ snr_db k <> (-1)%Z /\
      exists (o : outputs) (g' : rng), refresh k g = Ok (o, g')).
Proof.
  intros Hg.
  destruct (Req_dec_T (freq k) 0) as [Hf | Hf].
  { left. split; [now left |]. unfold refresh.
    apply bind_raise, lift_raise, max_distance_failure. auto. }
  destruct (Req_dec_T (path_loss_exp k) 0) as [Hn | Hn].
  { left. split; [now right |]. unfold refresh.
    apply bind_raise, lift_raise, max_distance_failure. auto. }
  right.
  destruct (Spectral.bits_per_sym (mod_scheme k)) as [b | e] eqn:Hb.
  - right. apply bits_per_sym_choices in Hb as Hin. destruct Hin as [Hin _].
    destruct (Z.eq_dec (snr_db k) (-1)%Z) as [Hs | Hs].
    + left. repeat (split; [assumption |]). unfold refresh.
      erewrite bind_ok; [| apply lift_ok, max_distance_nonzero; assumption].
      erewrite bind_ok; [| apply lift_ok, Hb].
      destruct (schedule_spec g Hg) as (sch & Hsch & _).
      erewrite bind_ok; [| exact Hsch].
      apply bind_raise. rewrite delay_unfold, Hs. reflexivity.
    + right. repeat (split; [assumption |]).
      destruct (refresh_run k g b Hg Hf Hn Hb Hs) as (sch & _ & Hrun).
      eauto.
  - left. apply bits_per_sym_failure in Hb as [Hnot ->].
    repeat (split; [assumption |]). unfold refresh.
    erewrite bind_ok; [| apply lift_ok, max_distance_nonzero; assumption].
    apply bind_raise, lift_raise, bits_per_sym_failure. auto.
Qed.

(** X7: take a generator that keeps its contract, a transmit power of its
    slider, a frequency and a path-loss exponent that are 0 or a value of
    their sliders, and an SNR that is -1 or a value of its slider.  Then a
    refresh runs to its end exactly when the frequency and the path-loss
    exponent are not 0, the modulation label is in the table and the SNR
    is not -1; it raises [KeyError] exactly when the label is missing and
    both divisors of the coverage formula are non-zero; it raises nothing
    but [ZeroDivisionError] and that [KeyError], in particular no
    [IndexError] from the schedule. *)
Theorem refresh_outcome (k : controls) (g : rng) (Hg : valid_tape g)
  (Hfreq : freq k = 0 \/ 2.3 <= freq k <= 3.5)
  (Hpower : (10 <= tx_power k <= 40)%Z)
  (Hexp : path_loss_exp k = 0 \/ 2 <= path_loss_exp k <= 5)
  (Hsnr : (-1 <= snr_db k <= 30)%Z) :
  ((exists (o : outputs) (g' : rng), refresh k g = Ok (o, g')) <->
     freq k <> 0 /\ path_loss_exp k <> 0 /\
     mod_scheme k ∈ Spectral.modulation_choices /\ snr_db k <> (-1)%Z) /\
  (refresh k g = Raise (KeyError (mod_scheme k)) <->
     freq k <> 0 /\ path_loss_exp k <> 0 /\
     (mod_scheme k ∉ Spectral.modulation_choices)) /\
  (forall e : exn,
      refresh k g = Raise e ->
      e = ZeroDivisionError \/ e = KeyError (mod_scheme k)).
Proof.
  destruct (refresh_cases k g Hg)
    as [[H0 Hr] | [(Hf & Hn & Hm & Hr) | [(Hf & Hn & Hm & Hs & Hr)
                                         | (Hf & Hn & Hm & Hs & o & g' & Hr)]]];
    rewrite Hr.
  - split; [| split].
    + split; [intros (o & g' & [=]) | intros (Hf & Hn & _); tauto].
    + split; [intros [=] | intros (Hf & Hn & _); tauto].
    + intros e [= <-]. now left.
  - split; [| split].
    + split; [intros (o & g' & [=]) | intros (_ & _ & Hin & _); contradiction].
    + split; auto.
    + intros e [= <-]. now right.
  - split; [| split].
    + split; [intros (o & g' & [=]) | intros (_ & _ & _ & Hs'); contradiction].
    + split; [intros [=] | intros (_ & _ & Hnot); contradiction].
    + intros e [= <-]. now left.
  - split; [| split].
    + split; eauto.
    + split; [intros [=] | intros (_ & _ & Hnot); contradiction].
    + intros e [=].
Qed.

Lemma refresh_outcome_witness :
  (exists (o : outputs) (g' : rng),
      refresh default_controls zero_rng = Ok (o, g')) /\
  refresh (mkControls 2.5 20 3.5 "BPSK" 10 "UGS" 10 false) zero_rng
    = Raise (KeyError "BPSK").
Proof.
  assert (Hfreq : 2.5 = 0 \/ 2.3 <= 2.5 <= 3.5) by (right; lra).
  assert (Hpower : (10 <= 20 <= 40)%Z) by lia.
  assert (Hexp : 3.5 = 0 \/ 2 <= 3.5 <= 5) by (right; lra).
  assert (Hsnr : (-1 <= 10 <= 30)%Z) by lia.
  split.
  - apply (refresh_outcome default_controls zero_rng valid_tape_zero
             Hfreq Hpower Hexp Hsnr).
    cbn. repeat split; try lra; try lia.
    unfold Spectral.modulation_choices. rewrite !elem_of_cons. auto.
  - apply (refresh_outcome (mkControls 2.5 20 3.5 "BPSK" 10 "UGS" 10 false)
             zero_rng valid_tape_zero Hfreq Hpower Hexp Hsnr).
    cbn. repeat split; try lra.
    unfold Spectral.modulation_choices.
    rewrite !elem_of_cons, elem_of_nil. intuition discriminate.
Defined.

Lemma refresh_ok_run (k : controls) (g g' : rng) (o : outputs) :
  valid_tape g -> refresh k g = Ok (o, g') ->
  exists (b : Z) (sch : list string),
    Spectral.bits_per_sym (mod_scheme k) = Ok b /\
    snr_db k <> (-1)%Z /\
    Scheduling.schedule g = Ok (sch, advance g 20) /\
    g' = advance g (if run_button k then 52 else 22) /\
    out_data_rate o = Spectral.data_rate (bw k) b /\
    out_schedule o = sch /\
    out_delay o = uniform_at 10 50 g 20 / IZR (snr_db k + 1) /\
    out_jitter o = uniform_at 1 10 g 21 / IZR (snr_db k + 1) /\
    out_live o =
      (if run_button k
       then Some (Monitor.mkSeries
              (map Z.of_nat (seq 0 30))
              (map (fun i => LinkQuality.ber
                      (IZR (snr_db k) + uniform_at (-2) 2 g (22 + i)))
                   (seq 0 30))
              (map (fun i => LinkQuality.throughput
                      (Spectral.data_rate (bw k) b)
                      (LinkQuality.ber
                         (IZR (snr_db k) + uniform_at (-2) 2 g (22 + i)))
                      / 1e6)
                   (seq 0 30)))
       else None).
Proof.
  intros Hg Hrun.
  destruct (refresh_cases k g Hg)
    as [[_ Hr] | [(_ & _ & _ & Hr) | [(_ & _ & _ & _ & Hr)
                                     | (Hf & Hn & Hm & Hs & _)]]];
    try congruence.
  destruct (bits_per_sym_ok _ Hm) as [b Hb].
  destruct (refresh_run k g b Hg Hf Hn Hb Hs) as (sch & Hsch & Hr).
  rewrite Hr in Hrun. injection Hrun as <- <-.
  exists b, sch. cbn [out_data_rate out_schedule out_delay out_jitter out_live].
  repeat split; auto.
Qed.

(** X8: a refresh that runs to its end consumes 22 raw samples, and 52
    when the button is pressed: the schedule takes samples 0 to 19, the
    delay sample 20, the jitter sample 21, and the monitoring loop, run
    with the data rate and the SNR of this refresh, samples 22 to 51. *)
Theorem refresh_consumption (k : controls) (g g' : rng) (o : outputs)
  (Hg : valid_tape g) (Hrun : refresh k g = Ok (o, g')) :
  g' = advance g (if run_button k then 52 else 22) /\
  Scheduling.schedule g = Ok (out_schedule o, advance g 20) /\
  LinkQuality.delay (snr_db k) (advance g 20)
    = Ok (out_delay o, advance g 21) /\
  LinkQuality.jitter (snr_db k) (advance g 21)
    = Ok (out_jitter o, advance g 22) /\
  (if run_button k
   then exists s : Monitor.series,
          out_live o = Some s /\
          Monitor.live_simulation (snr_db k) (out_data_rate o) (advance g 22)
            = Ok (s, advance g 52)
   else out_live o = None).
Proof.
  destruct (refresh_ok_run k g g' o Hg Hrun)
    as (b & sch & Hb & Hs & Hsch & Hg' & Hdr & Hsc & Hdl & Hjt & Hlv).
  split; [exact Hg' |]. split; [now rewrite Hsc |].
  split.
  { rewrite delay_unfold, truediv_int_ok by lia.
    rewrite advance_advance, uniform_at_advance, Hdl.
    do 3 f_equal. }
  split.
  { rewrite jitter_unfold, truediv_int_ok by lia.
    rewrite advance_advance, uniform_at_advance, Hjt.
    do 3 f_equal. }
  destruct (run_button k); [| exact Hlv].
  eexists. split; [exact Hlv |].
  rewrite live_simulation_spec, advance_advance, Hdr. do 2 f_equal.
  f_equal; apply map_ext; intros i; now rewrite uniform_at_advance.
Qed.

Lemma refresh_consumption_witness :
  exists (o : outputs) (g' : rng),
    refresh default_controls zero_rng = Ok (o, g') /\
    g' = advance zero_rng 52.
Proof.
  destruct (refresh_succeeds default_controls zero_rng
              valid_default_controls valid_tape_zero) as (o & g' & Hrun).
  exists o, g'. split; [exact Hrun |].
  apply (refresh_consumption default_controls zero_rng g' o
           valid_tape_zero Hrun).
Defined.



(** ** Slice assignment and index ranges *)

Lemma slice_positions_elem (step len i : nat) :
  (0 < step)%nat ->
  i ∈ OFDM.slice_positions step len <-> (i < len)%nat /\ (i mod step = 0)%nat.
Proof.
  intros Hstep. unfold OFDM.slice_positions.
  rewrite list_elem_of_fmap. split.
  - intros (q & -> & Hq). apply elem_of_seq in Hq as [_ Hq]. cbn in Hq.
    split; [| apply Nat.Div0.mod_mul].
    destruct (Nat.lt_ge_cases (q * step) len) as [H | H]; [exact H | exfalso].
    assert (Hle : ((len + step - 1) / step <= q)%nat).
    { apply Nat.lt_succ_r, Nat.Div0.div_lt_upper_bound. lia. }
    lia.
  - intros [Hi Hmod]. exists (i / step)%nat.
    assert (Hi' : i = (i / step * step)%nat).
    { pose proof (Nat.div_mod_eq i step). lia. }
    split; [exact Hi' |]. apply elem_of_seq. split; [lia |]. cbn.
    apply Nat.div_le_lower_bound; lia.
Qed.

Lemma foldr_insert_length (v : R) (idxs : list nat) (a : list R) :
  length (foldr (fun (i : nat) (acc : list R) => <[i := v]> acc) a idxs)
  = length a.
Proof.
  induction idxs as [| i idxs IH]; [reflexivity |].
  cbn [foldr]. now rewrite length_insert.
Qed.

Lemma foldr_insert_lookup (v : R) (idxs : list nat) (a : list R) (j : nat) :
  foldr (fun (i : nat) (acc : list R) => <[i := v]> acc) a idxs !! j
  = if decide (j ∈ idxs /\ (j < length a)%nat) then Some v else a !! j.
Proof.
  induction idxs as [| i idxs IH]; cbn [foldr].
  - rewrite decide_False; [reflexivity |].
    intros [H _]. now apply elem_of_nil in H.
  - destruct (decide (i = j)) as [-> | Hij].
    + destruct (Nat.lt_ge_cases j (length a)) as [Hj | Hj].
      * rewrite list_lookup_insert_eq by (now rewrite foldr_insert_length).
        rewrite decide_True; [reflexivity |].
        split; [apply elem_of_cons; now left | exact Hj].
      * rewrite list_insert_ge by (rewrite foldr_insert_length; lia).
        rewrite IH. rewrite !decide_False; [reflexivity | |];
          intros [_ H]; lia.
    + rewrite list_lookup_insert_ne by exact Hij. rewrite IH.
      apply decide_ext. rewrite elem_of_cons. intuition congruence.
Qed.

(** X12: [a[::step] = v] keeps the length of [a], stores [v] at the positions
    that are multiples of [step] and leaves every other entry as it was. *)
Theorem assign_every_spec (step : nat) (v : R) (a : list R) (i : nat)
  (Hstep : (0 < step)%nat) :
  length (OFDM.assign_every step v a) = length a /\
  OFDM.assign_every step v a !! i =
    if decide ((i < length a)%nat /\ (i mod step = 0)%nat)
    then Some v else a !! i.
Proof.
  unfold OFDM.assign_every. split; [apply foldr_insert_length |].
  rewrite foldr_insert_lookup. apply decide_ext.
  rewrite slice_positions_elem by exact Hstep. tauto.
Qed.

Lemma assign_every_spec_witness :
  length (OFDM.assign_every 2 7 [1; 2; 3]) = 3%nat /\
  OFDM.assign_every 2 7 [1; 2; 3] !! 2%nat = Some 7.
Proof.
  assert (Hstep : (0 < 2)%nat) by lia.
  pose proof (assign_every_spec 2 7 [1; 2; 3] 2 Hstep) as [Hlen Hlook].
  split; [exact Hlen |]. rewrite Hlook. reflexivity.
Defined.

(** X13: [np.arange(-n//2, n//2)] and the zeroed, slice-assigned array of
    size [n] have the same length [n], whatever the parity of [n] and also
    for [n = 0]; entry [i] of the index vector is [-n//2 + i]. *)
Theorem subcarrier_axis_matches_power (n : Z) (Hn : (0 <= n)%Z) :
  length (OFDM.arange ((- n) / 2) (n / 2)) = Z.to_nat n /\
  length (OFDM.assign_every 4 1 (OFDM.zeros n)) = Z.to_nat n /\
  forall i : nat,
    (i < Z.to_nat n)%nat ->
    OFDM.arange ((- n) / 2) (n / 2) !! i = Some ((- n) / 2 + Z.of_nat i)%Z /\
    ((- n) / 2 <= (- n) / 2 + Z.of_nat i < n / 2)%Z.
Proof.
  assert (Hdiff : (n / 2 - (- n) / 2 = n)%Z).
  { Z.div_mod_to_equations. lia. }
  unfold OFDM.arange. rewrite Hdiff.
  split; [now rewrite length_map, length_seq |].
  split.
  { unfold OFDM.assign_every, OFDM.zeros.
    now rewrite foldr_insert_length, repeat_length. }
  intros i Hi. split; [| lia].
  now rewrite (lookup_map_seq (fun j : nat => ((- n) / 2 + Z.of_nat j)%Z)).
Qed.

Lemma subcarrier_axis_matches_power_witness :
  length (OFDM.arange ((- 0) / 2) (0 / 2)) = 0%nat /\
  length (OFDM.assign_every 4 1 (OFDM.zeros 0)) = 0%nat /\
  length (OFDM.arange ((- 5) / 2) (5 / 2)) = 5%nat /\
  OFDM.arange ((- 5) / 2) (5 / 2) !! 0%nat = Some (-3)%Z.
Proof.
  assert (H0 : (0 <= 0)%Z) by lia.
  assert (H5 : (0 <= 5)%Z) by lia.
  pose proof (subcarrier_axis_matches_power 0 H0) as (Ha & Hb & _).
  pose proof (subcarrier_axis_matches_power 5 H5) as (Hc & _ & Hd).
  assert (Hi : (0 < Z.to_nat 5)%nat) by (simpl; lia).
  split; [exact Ha |]. split; [exact Hb |]. split; [exact Hc |].
  exact (proj1 (Hd 0%nat Hi)).
Defined.

(** ** The monitoring loop over any range *)

Lemma for_each_step_general (snr_db : Z) (data_rate : R) (ts : list Z) :
  forall (s : Monitor.series) (g : rng),
    Monitor.for_each ts (Monitor.step snr_db data_rate) s g =
      Ok (Monitor.mkSeries
            (Monitor.x_vals s ++ ts)
            (Monitor.ber_vals s ++
               map (fun i => LinkQuality.ber
                               (IZR snr_db + uniform_at (-2) 2 g i))
                   (seq 0 (length ts)))
            (Monitor.thr_vals s ++
               map (fun i => LinkQuality.throughput data_rate
                               (LinkQuality.ber
                                  (IZR snr_db + uniform_at (-2) 2 g i))
                             / 1e6)
                   (seq 0 (length ts))),
          advance g (length ts)).
Proof.
  induction ts as [| t ts IH]; intros s g.
  - cbn [length seq map Monitor.for_each]. unfold ret.
    rewrite !app_nil_r, advance_0. now destruct s.
  - cbn [length seq map Monitor.for_each]. unfold bind.
    rewrite step_spec, IH.
    cbn [Monitor.x_vals Monitor.ber_vals Monitor.thr_vals].
    rewrite advance_advance, <- !app_assoc. cbn [List.app].
    do 2 f_equal. f_equal; do 2 f_equal;
      rewrite <- seq_shift, map_map; apply map_ext; intros i;
      unfold uniform_at; now rewrite sample_at_advance.
Qed.

(** X14: for an SNR of the slider the loop does not fail and only
    appends: whatever the range and the lists it starts from, it consumes
    one raw sample per pass, the new times are the values of the loop
    variable in order, the old contents stay in front, and each of the
    three lists grows by the number of passes. *)
Theorem for_each_appends (snr_db : Z) (data_rate : R) (ts : list Z)
        (s : Monitor.series) (g : rng) (Hsnr : (0 <= snr_db <= 30)%Z) :
  exists s' : Monitor.series,
    Monitor.for_each ts (Monitor.step snr_db data_rate) s g
      = Ok (s', advance g (length ts)) /\
    Monitor.x_vals s' = (Monitor.x_vals s ++ ts)%list /\
    Monitor.ber_vals s `prefix_of` Monitor.ber_vals s' /\
    Monitor.thr_vals s `prefix_of` Monitor.thr_vals s' /\
    length (Monitor.ber_vals s')
      = (length (Monitor.ber_vals s) + length ts)%nat /\
    length (Monitor.thr_vals s')
      = (length (Monitor.thr_vals s) + length ts)%nat.
Proof.
  eexists. split; [apply for_each_step_general |].
  cbn [Monitor.x_vals Monitor.ber_vals Monitor.thr_vals].
  split; [reflexivity |].
  split; [apply prefix_app_r; reflexivity |].
  split; [apply prefix_app_r; reflexivity |].
  rewrite !length_app, !length_map, !length_seq. auto.
Qed.

Lemma for_each_appends_witness :
  exists s' : Monitor.series,
    Monitor.for_each [7; 9]%Z (Monitor.step 10 1e6)
      (Monitor.mkSeries [3%Z] [0.1] [0.9]) zero_rng
      = Ok (s', advance zero_rng 2) /\
    Monitor.x_vals s' = [3; 7; 9]%Z /\
    length (Monitor.ber_vals s') = 3%nat.
Proof.
  assert (Hsnr : (0 <= 10 <= 30)%Z) by lia.
  destruct (for_each_appends 10 1e6 [7; 9]%Z
              (Monitor.mkSeries [3%Z] [0.1] [0.9]) zero_rng Hsnr)
    as (s' & Hrun & Hx & _ & _ & Hlen & _).
  exists s'. split; [exact Hrun |]. split; [exact Hx | exact Hlen].
Defined.

(** X15: for an SNR of the slider and a data rate of at least 1 bit/s,
    every BER of a run lies between the BER at 2 dB above and at 2 dB
    below the configured SNR, and every stored throughput between the
    matching throughputs, hence above half the data rate and not above the
    data rate (in Mbps). *)
Theorem live_simulation_band (snr_db : Z) (data_rate : R) (g : rng)
  (Hg : valid_tape g) (Hsnr : (0 <= snr_db <= 30)%Z) (Hdr : 1 <= data_rate) :
  exists s : Monitor.series,
    Monitor.live_simulation snr_db data_rate g = Ok (s, advance g 30) /\
    Forall (fun b => LinkQuality.ber (IZR snr_db + 2) <= b
                     <= LinkQuality.ber (IZR snr_db - 2))
           (Monitor.ber_vals s) /\
    Forall (fun thr =>
              LinkQuality.throughput data_rate
                (LinkQuality.ber (IZR snr_db - 2)) / 1e6 <= thr
              <= LinkQuality.throughput data_rate
                   (LinkQuality.ber (IZR snr_db + 2)) / 1e6)
           (Monitor.thr_vals s) /\
    Forall (fun thr => data_rate / 2 / 1e6 < thr <= data_rate / 1e6)
           (Monitor.thr_vals s).
Proof.
  eexists. split; [apply live_simulation_spec |].
  cbn [Monitor.ber_vals Monitor.thr_vals].
  assert (Hband : forall i : nat,
             LinkQuality.ber (IZR snr_db + 2)
             < LinkQuality.ber (IZR snr_db + uniform_at (-2) 2 g i)
             <= LinkQuality.ber (IZR snr_db - 2)).
  { intros i. pose proof (uniform_at_range (-2) 2 g i Hg ltac:(lra)) as [Hlo Hhi].
    split; [apply ber_decreasing; lra |].
    destruct Hlo as [Hlo | Hlo].
    - left. apply ber_decreasing. lra.
    - right. f_equal. lra. }
  pose proof (ber_bounds (IZR snr_db - 2)) as Hb1.
  pose proof (ber_bounds (IZR snr_db + 2)) as Hb2.
  repeat split; apply Forall_forall; intros x Hx;
    apply list_elem_of_fmap in Hx as (i & -> & _);
    specialize (Hband i); unfold LinkQuality.throughput; try lra;
    unfold Rdiv; nra.
Qed.

Lemma live_simulation_band_witness :
  exists s : Monitor.series,
    Monitor.live_simulation 10 1e6 zero_rng = Ok (s, advance zero_rng 30) /\
    Forall (fun thr => 1e6 / 2 / 1e6 < thr <= 1e6 / 1e6) (Monitor.thr_vals s).
Proof.
  assert (Hsnr : (0 <= 10 <= 30)%Z) by lia.
  assert (Hdr : 1 <= 1e6) by lra.
  destruct (live_simulation_band 10 1e6 zero_rng valid_tape_zero Hsnr Hdr)
    as (s & Hrun & _ & _ & Hthr).
  exists s. split; assumption.
Defined.

(** ** The reference curve *)

Lemma linspace_lookup (start stop : R) (num i : nat) :
  (i < num)%nat ->
  LinkQuality.linspace start stop num !! i
  = Some (start + INR i * ((stop - start) / INR (num - 1))).
Proof.
  intros Hi. unfold LinkQuality.linspace.
  now rewrite (lookup_map_seq
                 (fun j : nat => start + INR j * ((stop - start) / INR (num - 1)))).
Qed.

(** X10: [np.linspace(start, stop, num)] with at least two points: [num]
    points, the first [start], the last [stop], strictly increasing when
    [start < stop], each [(stop - start) / (num - 1)] after the one
    before. *)
Theorem linspace_grid (start stop : R) (num i j : nat) (x y : R)
  (Hnum : (2 <= num)%nat) (Hlt : start < stop) (Hij : (i < j)%nat)
  (Hx : LinkQuality.linspace start stop num !! i = Some x)
  (Hy : LinkQuality.linspace start stop num !! j = Some y) :
  length (LinkQuality.linspace start stop num) = num /\
  LinkQuality.linspace start stop num !! 0%nat = Some start /\
  LinkQuality.linspace start stop num !! (num - 1)%nat = Some stop /\
  start <= x /\ x < y /\ y <= stop /\
  y - x = INR (j - i) * ((stop - start) / INR (num - 1)).
Proof.
  assert (Hlen : length (LinkQuality.linspace start stop num) = num).
  { unfold LinkQuality.linspace. now rewrite length_map, length_seq. }
  assert (Hj : (j < num)%nat).
  { apply lookup_lt_Some in Hy. now rewrite Hlen in Hy. }
  rewrite linspace_lookup in Hx, Hy by lia.
  injection Hx as <-. injection Hy as <-.
  assert (Hden : 1 <= INR (num - 1)).
  { change 1 with (INR 1). apply le_INR. lia. }
  set (h := (stop - start) / INR (num - 1)).
  assert (Hh : 0 < h) by (apply Rdiv_lt_0_compat; lra).
  assert (Hi0 : 0 <= INR i) by apply pos_INR.
  assert (Hij' : INR i < INR j) by (apply lt_INR; exact Hij).
  assert (Hjn : INR j <= INR (num - 1)) by (apply le_INR; lia).
  assert (Hfull : INR (num - 1) * h = stop - start) by (unfold h; field; lra).
  split; [exact Hlen |].
  split; [rewrite linspace_lookup by lia; f_equal; simpl; lra |].
  split; [rewrite linspace_lookup by lia; f_equal; fold h; lra |].
  split; [nra |]. split; [nra |]. split; [nra |].
  rewrite minus_INR by lia. ring.
Qed.

Lemma snr_range_lookup (i : nat) :
  (i < 50)%nat ->
  LinkQuality.snr_range !! i = Some (INR i * (30 / 49)).
Proof.
  intros Hi. unfold LinkQuality.snr_range. rewrite linspace_lookup by exact Hi.
  f_equal. replace (INR (50 - 1)) with 49
    by (rewrite INR_IZR_INZ; change (Z.of_nat (50 - 1)) with 49%Z; reflexivity).
  lra.
Qed.

Lemma linspace_grid_witness :
  length LinkQuality.snr_range = 50%nat /\
  LinkQuality.snr_range !! 49%nat = Some 30.
Proof.
  assert (Hnum : (2 <= 50)%nat) by lia.
  assert (Hlt : 0 < 30) by lra.
  assert (Hij : (0 < 1)%nat) by lia.
  pose proof (linspace_grid 0 30 50 0 1 _ _ Hnum Hlt Hij
                (snr_range_lookup 0 ltac:(lia))
                (snr_range_lookup 1 ltac:(lia))) as (H1 & _ & H3 & _).
  split; [exact H1 | exact H3].
Defined.

Lemma ber_curve_lookup (i : nat) :
  (i < 50)%nat ->
  LinkQuality.ber_curve !! i = Some (LinkQuality.ber (INR i * (30 / 49))).
Proof.
  intros Hi. unfold LinkQuality.ber_curve.
  change (map ?f ?l) with (f <$> l).
  rewrite list_lookup_fmap, snr_range_lookup by exact Hi. reflexivity.
Qed.

Lemma ber_below_binary64 (s : R) :
  23 / 8 * 10 <= s -> LinkQuality.ber s < / 2 ^ 1075.
Proof.
  intros Hs.
  assert (Hlin : 746 < LinkQuality.snr_lin s).
  { apply Rlt_le_trans with (Rpower 10 (23 / 8));
      [pose proof Rpower_10_lower; lra |].
    unfold LinkQuality.snr_lin. apply Rle_Rpower; lra. }
  unfold LinkQuality.ber.
  assert (Hexp : exp (- LinkQuality.snr_lin s) < exp (-746))
    by (apply exp_increasing; lra).
  pose proof exp_m746_tiny. pose proof (exp_pos (- LinkQuality.snr_lin s)).
  lra.
Qed.

(** X11: the curve holds the BER on the 50 grid points: as many values as
    grid points, the first the BER at 0 dB, none negative, none larger
    than the one before; strictly decreasing up to index 46, and from
    index 47 on (28.8 dB and more) below [2^-1075], the values that
    binary64 stores as 0. *)
Theorem ber_curve_samples (i j : nat) (x y : R)
  (Hij : (i < j)%nat)
  (Hx : LinkQuality.ber_curve !! i = Some x)
  (Hy : LinkQuality.ber_curve !! j = Some y) :
  LinkQuality.ber_curve = map LinkQuality.ber LinkQuality.snr_range /\
  length LinkQuality.ber_curve = length LinkQuality.snr_range /\
  length LinkQuality.ber_curve = 50%nat /\
  LinkQuality.ber_curve !! 0%nat = Some (LinkQuality.ber 0) /\
  0 <= y /\ y <= x /\ x <= LinkQuality.ber 0 /\
  ((j <= 46)%nat -> y < x) /\
  ((47 <= j)%nat -> y < / 2 ^ 1075).
Proof.
  assert (Hlen : length LinkQuality.ber_curve = 50%nat).
  { unfold LinkQuality.ber_curve, LinkQuality.snr_range, LinkQuality.linspace.
    now rewrite !length_map, length_seq. }
  assert (Hj : (j < 50)%nat).
  { apply lookup_lt_Some in Hy. now rewrite Hlen in Hy. }
  rewrite ber_curve_lookup in Hx, Hy by lia.
  injection Hx as <-. injection Hy as <-.
  split; [reflexivity |].
  split; [unfold LinkQuality.ber_curve; now rewrite length_map |].
  split; [exact Hlen |].
  split; [rewrite ber_curve_lookup by lia; do 2 f_equal; simpl; lra |].
  assert (Hi0 : 0 <= INR i) by apply pos_INR.
  assert (Hij' : INR i < INR j) by (apply lt_INR; exact Hij).
  assert (Hlt : LinkQuality.ber (INR j * (30 / 49))
                < LinkQuality.ber (INR i * (30 / 49)))
    by (apply ber_decreasing; lra).
  split; [left; apply ber_bounds |].
  split; [left; exact Hlt |].
  split.
  { destruct Hi0 as [H | H].
    - left. apply ber_decreasing. lra.
    - right. f_equal. rewrite <- H. lra. }
  split; [intros _; exact Hlt |].
  intros H47. apply ber_below_binary64.
  assert (H : 47 <= INR j).
  { replace 47 with (INR 47)
      by (rewrite INR_IZR_INZ; change (Z.of_nat 47) with 47%Z; reflexivity).
    apply le_INR. exact H47. }
  lra.
Qed.

Lemma ber_curve_samples_witness :
  LinkQuality.ber (INR 7 * (30 / 49)) < LinkQuality.ber (INR 3 * (30 / 49)) /\
  LinkQuality.ber (INR 48 * (30 / 49)) < / 2 ^ 1075.
Proof.
  split.
  - assert (Hij : (3 < 7)%nat) by lia.
    apply (ber_curve_samples 3 7 _ _ Hij
             (ber_curve_lookup 3 ltac:(lia)) (ber_curve_lookup 7 ltac:(lia))).
    lia.
  - assert (Hij : (47 < 48)%nat) by lia.
    apply (ber_curve_samples 47 48 _ _ Hij
             (ber_curve_lookup 47 ltac:(lia)) (ber_curve_lookup 48 ltac:(lia))).
    lia.
Defined.

(** ** Descriptors, power gain and the button *)

(** X16: the descriptor tells the class: an identifier gets the UGS, rtPS
    or nrtPS descriptor exactly when it is that identifier, letter for
    letter, and the Best Effort descriptor exactly when it is none of the
    three. *)
Theorem qos_descriptor_identifies_class (q : string) :
  (QoS.analyze q = QoS.analyze "UGS" <-> q = "UGS") /\
  (QoS.analyze q = QoS.analyze "rtPS" <-> q = "rtPS") /\
  (QoS.analyze q = QoS.analyze "nrtPS" <-> q = "nrtPS") /\
  (QoS.analyze q = QoS.analyze "BE" <->
     q <> "UGS" /\ q <> "rtPS" /\ q <> "nrtPS").
Proof.
  destruct (String.eqb_spec q "UGS") as [-> | H1].
  { repeat split; try reflexivity; try discriminate;
      intros H; try (exfalso; apply (f_equal QoS.description) in H;
                     discriminate H); tauto. }
  destruct (String.eqb_spec q "rtPS") as [-> | H2].
  { repeat split; try reflexivity; try discriminate;
      intros H; try (exfalso; apply (f_equal QoS.description) in H;
                     discriminate H); tauto. }
  destruct (String.eqb_spec q "nrtPS") as [-> | H3].
  { repeat split; try reflexivity; try discriminate;
      intros H; try (exfalso; apply (f_equal QoS.description) in H;
                     discriminate H); tauto. }
  rewrite (analyze_else q H1 H2 H3).
  repeat split; try assumption; try reflexivity;
    intros H; try contradiction;
    exfalso; apply (f_equal QoS.description) in H; discriminate H.
Qed.

(** X17: within the slider ranges, adding [k] dB of transmit power
    multiplies the coverage radius by [10^(k / (10 n))]. *)
Theorem coverage_radius_power_gain (f : R) (P k : Z) (n : R)
  (Hf : 2.3 <= f <= 3.5) (HP : (10 <= P <= 40)%Z)
  (HPk : (10 <= P + k <= 40)%Z) (Hn : 2 <= n <= 5) :
  exists d d' : R,
    Coverage.max_distance f P n = Ok d /\
    Coverage.max_distance f (P + k) n = Ok d' /\
    d' = d * Rpower 10 (IZR k / (10 * n)).
Proof.
  exists (range_formula f P n), (range_formula f (P + k) n).
  rewrite !max_distance_nonzero by lra.
  repeat split. unfold range_formula.
  rewrite Rmult_assoc, <- Rpower_plus. do 2 f_equal.
  rewrite plus_IZR. field. lra.
Qed.

Lemma coverage_radius_power_gain_witness :
  exists d d' : R,
    Coverage.max_distance 2.5 20 2 = Ok d /\
    Coverage.max_distance 2.5 (20 + 20) 2 = Ok d' /\
    d' = d * Rpower 10 (20 / (10 * 2)).
Proof.
  assert (Hf : 2.3 <= 2.5 <= 3.5) by lra.
  assert (HP : (10 <= 20 <= 40)%Z) by lia.
  assert (HPk : (10 <= 20 + 20 <= 40)%Z) by lia.
  assert (Hn : 2 <= 2 <= 5) by lra.
  exact (coverage_radius_power_gain 2.5 20 20 2 Hf HP HPk Hn).
Defined.

(** X18: pressing the button changes nothing but the monitoring: the same
    controls with the button released give the same outputs, without the
    series, and stop 30 raw samples earlier. *)
Theorem refresh_button_only_adds_monitoring
        (k : controls) (g g' : rng) (o : outputs)
  (Hg : valid_tape g)
  (Hrun : refresh (set_run_button true k) g = Ok (o, g')) :
  exists o0 : outputs,
    refresh (set_run_button false k) g = Ok (o0, advance g 22) /\
    g' = advance g 52 /\
    out_live o0 = None /\ out_live o <> None /\
    out_max_distance o0 = out_max_distance o /\
    out_data_rate o0 = out_data_rate o /\
    out_qos o0 = out_qos o /\
    out_subcarriers o0 = out_subcarriers o /\
    out_power o0 = out_power o /\
    out_schedule o0 = out_schedule o /\
    out_ber o0 = out_ber o /\
    out_throughput o0 = out_throughput o /\
    out_delay o0 = out_delay o /\
    out_jitter o0 = out_jitter o /\
    out_plr o0 = out_plr o /\
    out_ber_curve o0 = out_ber_curve o.
Proof.
  destruct (refresh_cases (set_run_button true k) g Hg)
    as [[_ Hr] | [(_ & _ & _ & Hr) | [(_ & _ & _ & _ & Hr)
                                     | (Hf & Hn & Hm & Hs & _)]]];
    try congruence.
  cbn in Hf, Hn, Hm, Hs.
  destruct (bits_per_sym_ok _ Hm) as [b Hb].
  destruct (refresh_run (set_run_button true k) g b Hg Hf Hn Hb Hs)
    as (sch1 & Hsch1 & Hr1).
  destruct (refresh_run (set_run_button false k) g b Hg Hf Hn Hb Hs)
    as (sch2 & Hsch2 & Hr2).
  assert (Hsch : sch1 = sch2) by congruence. subst sch2.
  rewrite Hr1 in Hrun. injection Hrun as <- <-.
  eexists. split; [exact Hr2 |]. cbn. repeat split. discriminate.
Qed.

Lemma refresh_button_only_adds_monitoring_witness :
  exists o0 : outputs,
    refresh (set_run_button false default_controls) zero_rng
      = Ok (o0, advance zero_rng 22) /\
    out_live o0 = None.
Proof.
  destruct (refresh_succeeds (set_run_button true default_controls) zero_rng
              valid_default_controls valid_tape_zero) as (o & g' & Hrun).
  destruct (refresh_button_only_adds_monitoring default_controls zero_rng
              g' o valid_tape_zero Hrun) as (o0 & H1 & _ & H3 & _).
  exists o0. split; assumption.
Defined.
